(** * Reddit scraper: the collection pipeline, its route and its page

    A shallow embedding of the server module of the scraper (the functions
    [fetchRedditJSON], [isMediaPost], [extractPost], [fetchPosts],
    [fetchComments] and the [/api/scrape] handler registered by
    [registerRoutes]) together with the properties its specification
    states about them; of the validation of a request by
    [scrapeConfigSchema]; and of [startScraping], the function of the page
    that sends the request and follows the event stream.

    The program talks to the network, sleeps and writes server-sent events.
    These effects are modelled by a small monad: a computation reads the
    answers of the network from an oracle [net], advances a request clock
    and appends to a trace of observable actions (requests with their
    answers, sleeps, events written to the response, console output).

    Documents of the API are taken at the types the code asserts for them
    with [as]; where the code itself inspects the shape of a document
    ([Array.isArray], [length], missing [children]) the shapes it tells
    apart are kept apart here too.

    The page is a function on the state of its component: the response it
    reads is given chunk by chunk, and [JSON.parse] is a parameter. *)

From Stdlib Require Import String Ascii List Arith ZArith Bool Lia.
From Stdlib Require Import DecimalNat DecimalString Sorted.
Import ListNotations.
Local Open Scope string_scope.
Local Open Scope list_scope.
Local Open Scope nat_scope.

(** String concatenation, JavaScript's [+] on strings and its template
    literals. *)
Infix "+++" := String.append (at level 60, right associativity).

Set Implicit Arguments.
Set Warnings "-register-all".

(* ===================================================================== *)
(** ** Strings, the way the JavaScript code uses them *)
(* ===================================================================== *)

(** [`${n}`] for a non-negative whole number. *)
Definition string_of_nat (n : nat) : string :=
  NilEmpty.string_of_uint (Nat.to_uint n).

(** [s.includes(pat)] *)
Definition includes (pat s : string) : bool :=
  match String.index 0 pat s with
  | Some _ => true
  | None => false
  end.

(** [s.replace(pat, rep)] with a string pattern: only the first match. *)
Definition replace (pat rep s : string) : string :=
  match String.index 0 pat s with
  | Some i =>
      substring 0 i s +++ rep
        +++ substring (i + String.length pat)
                     (String.length s - (i + String.length pat)) s
  | None => s
  end.

(** [s.endsWith(suffix)] *)
Definition endsWith (suffix s : string) : bool :=
  (String.length suffix <=? String.length s)
  && String.eqb
       (substring (String.length s - String.length suffix)
                  (String.length suffix) s)
       suffix.

(** [s.toLowerCase()].  Only the letters A-Z change; every other byte is
    kept.  No character outside ASCII lowers to one of the letters of the
    media extensions below, so the suffix tests agree with JavaScript's. *)
Definition lower_ascii (c : ascii) : ascii :=
  let n := nat_of_ascii c in
  if (65 <=? n) && (n <=? 90) then ascii_of_nat (n + 32) else c.

Fixpoint toLowerCase (s : string) : string :=
  match s with
  | EmptyString => EmptyString
  | String c r => String (lower_ascii c) (toLowerCase r)
  end.

(** Truthiness of a [string | undefined | null] value. *)
Definition truthy_str (s : option string) : bool :=
  match s with
  | Some EmptyString | None => false
  | Some _ => true
  end.

(** [s || ""] *)
Definition or_empty (s : option string) : string :=
  match s with
  | Some t => t
  | None => ""
  end.

(** [xs.slice(from, to)] for whole, non-negative bounds. *)
Definition slice {A : Type} (from to : nat) (xs : list A) : list A :=
  firstn (to - from) (skipn from xs).

(* ===================================================================== *)
(** ** Data model ([shared/schema.ts] and the documents of the API) *)
(* ===================================================================== *)

(** A JSON value the code treats as [unknown]. *)
Inductive json : Type :=
| JNull
| JBool (b : bool)
| JNum (n : Z)
| JStr (s : string)
| JArr (items : list json)
| JObj (members : list (string * json)).

(** The [data] member of a child of a post listing, a
    [Record<string, unknown>], with the members the code reads at the types
    it asserts for them.  [None] stands for an absent ([undefined]) member. *)
Record PostData : Type := mkPostData {
  pd_id : string;
  pd_title : string;
  pd_selftext : option string;
  pd_permalink : string;
  pd_url : option string;
  pd_created_utc : Z;
  pd_score : Z;
  pd_post_hint : option string;
  pd_is_gallery : option json;
  pd_preview : option json;
  pd_media : option json
}.

(** The [data] member of a child of a comment listing. *)
Record CommentData : Type := mkCommentData {
  cd_id : string;
  cd_body : option string;
  cd_score : Z
}.

(** [interface RedditPost] *)
Record RedditPost : Type := mkRedditPost {
  post_id : string;
  post_title : string;
  post_selftext : string;
  post_permalink : string;
  post_url : option string;
  post_created_utc : Z;
  post_score : Z
}.

(** [interface RedditComment] *)
Record RedditComment : Type := mkRedditComment {
  comment_rank : nat;
  comment_id : string;
  comment_body : string;
  comment_score : Z
}.

(** [data.data] of a post listing: [children] may be missing, [after] is a
    [string | null]. *)
Record Listing : Type := mkListing {
  listing_children : option (list PostData);
  listing_after : option string
}.

(** An element of the array a permalink answers with, seen the way the code
    sees [data[1]]: a listing whose [.data.children] carry comment data, or
    anything else, on which reading [.data.children] or iterating over it
    raises the [TypeError] whose message it carries. *)
Inductive Segment : Type :=
| CommentListing (children : list CommentData)
| OtherSegment (type_error : string).

(** What [response.json()] resolves to.  [ListingDoc] is an object whose
    [data] member is present; [ArrayDoc] is an array; [OtherDoc] is any other
    document, on which reading [data.data.children] raises the [TypeError]
    whose message it carries. *)
Inductive document : Type :=
| ListingDoc (l : Listing)
| ArrayDoc (segments : list Segment)
| OtherDoc (type_error : string).

(** [type ScrapeConfig], after [scrapeConfigSchema.safeParse] succeeded.
    The counts are whole numbers: the form submits [parseInt] values. *)
Inductive SortBy : Type := top | new | hot.
Inductive ExportMode : Type := clean | flat_labels.

Record ScrapeConfig : Type := mkScrapeConfig {
  subreddit : string;
  postCount : nat;
  skipPosts : nat;
  commentsPerPost : nat;
  sortBy : SortBy;
  exportMode : ExportMode
}.

(** The bounds [scrapeConfigSchema] enforces. *)
Definition scrapeConfigSchema (c : ScrapeConfig) : bool :=
  (1 <=? String.length (subreddit c))
  && (1 <=? postCount c) && (postCount c <=? 1000)
  && (skipPosts c <=? 5000)
  && (1 <=? commentsPerPost c) && (commentsPerPost c <=? 200).

Definition sort_name (s : SortBy) : string :=
  match s with
  | top => "top"
  | new => "new"
  | hot => "hot"
  end.

(** [CleanExportItem | FlatExportItem].  A flat item is an object whose
    members are kept in insertion order, as [JSON.stringify] writes them. *)
Inductive ExportItem : Type :=
| CleanExportItem (post : RedditPost) (comments : list RedditComment)
| FlatExportItem (members : list (string * string)).

(** The payloads written to the event stream. *)
Inductive SSE : Type :=
| progress (postsFound : nat) (postsProcessed commentsCollected : option nat)
           (message : string)
| complete (message : string) (data : list ExportItem)
| error (message : string).

(* ===================================================================== *)
(** ** Effects *)
(* ===================================================================== *)

(** A thrown value: an instance of [Error] or of one of its subclasses, with
    its message, or something that is no [Error] at all. *)
Inductive error_class : Type := Error | TypeError | SyntaxError | OtherClass.

Inductive thrown : Type :=
| Err (class : error_class) (message : string)
| NonError.

(** What [response.json()] does with the body. *)
Inductive body : Type :=
| Parsed (d : document)
| Unparsable (syntax_error : string).

Record response : Type := mkResponse {
  status : nat;
  json_body : body
}.

(** What one [fetch] call comes back with. *)
Inductive outcome : Type :=
| Responded (r : response)
| Rejected (e : thrown).

(** The observable actions of a run, in the order they happen. *)
Inductive io : Type :=
| Fetch (url : string) (o : outcome)
| Sleep (ms : nat)
| Write (e : SSE)
| ConsoleError (text : string) (e : thrown)
| EndResponse.

Inductive result (A : Type) : Type :=
| Ret (a : A)
| Throw (e : thrown).
Arguments Throw {A} e.

Record run (A : Type) : Type := mkRun {
  res : result A;
  now : nat;
  out : list io
}.

(** A computation starts at a request clock and yields a result, the clock
    it stopped at and the actions it performed. *)
Definition M (A : Type) : Type := nat -> run A.

Definition ret {A : Type} (a : A) : M A :=
  fun c => mkRun (Ret a) c [].

Definition throw {A : Type} (e : thrown) : M A :=
  fun c => mkRun (Throw e) c [].

Definition bind {A B : Type} (m : M A) (f : A -> M B) : M B :=
  fun c =>
    let r := m c in
    match res r with
    | Ret a => let r' := f a (now r) in mkRun (res r') (now r') (out r ++ out r')
    | Throw e => mkRun (Throw e) (now r) (out r)
    end.

(** [try { m } catch (error) { h error }] *)
Definition try_catch {A : Type} (m : M A) (h : thrown -> M A) : M A :=
  fun c =>
    let r := m c in
    match res r with
    | Ret a => r
    | Throw e => let r' := h e (now r) in mkRun (res r') (now r') (out r ++ out r')
    end.

Definition emit (e : io) : M unit :=
  fun c => mkRun (Ret tt) c [e].

Declare Scope m_scope.
Delimit Scope m_scope with m.
Notation "x <- m ;; k" := (bind m (fun x => k))
  (at level 61, m at next level, right associativity) : m_scope.
Notation "m ;; k" := (bind m (fun _ => k))
  (at level 61, right associativity) : m_scope.
Local Open Scope m_scope.

Definition USER_AGENT : string :=
  "Mozilla/5.0 (Windows NT 10.0; Win64; x64) AppleWebKit/537.36 (KHTML, like Gecko) Chrome/120.0.0.0 Safari/537.36".
Definition DELAY_BETWEEN_REQUESTS : nat := 2000.

(** [await delay(ms)] *)
Definition delay (ms : nat) : M unit := emit (Sleep ms).

Definition is_ok (r : response) : bool :=
  (200 <=? status r) && (status r <=? 299).

Definition rate_limited_message : string :=
  "Rate limited by Reddit. Please wait a few minutes and try again.".
Definition blocked_message : string :=
  "Reddit is blocking requests from this server. This is a known limitation when running from cloud environments. The app works correctly when run locally.".
Definition api_error_message (st : nat) : string :=
  "Reddit API error: " +++ string_of_nat st.

(** How one pass through the body of the attempt loop ends. *)
Inductive step : Type :=
| Return (r : response)
| Break (lastError : option thrown)
| Continue (lastError : option thrown).

(** How the attempt loop for one host ends. *)
Inductive host_end : Type :=
| Returned (r : response)
| Exhausted (lastError : option thrown).

Section Network.

(** The network: the answer to the [c]-th request of the run, made to
    [url].  Every sequence of answers is some [net]. *)
Variable net : nat -> string -> outcome.

(** [await fetch(tryUrl, { headers })] *)
Definition fetch (url : string) : M response :=
  fun c =>
    match net c url with
    | Responded r => mkRun (Ret r) (S c) [Fetch url (Responded r)]
    | Rejected e => mkRun (Throw e) (S c) [Fetch url (Rejected e)]
    end.

(** The [try] block of one attempt. *)
Definition attempt_try (tryUrl : string) (retries attempt : nat)
    (lastError : option thrown) : M step :=
  response <- fetch tryUrl ;;
  if is_ok response then ret (Return response)
  else if status response =? 429 then
    if attempt <? retries then
      delay (5000 * (attempt + 1)) ;;
      ret (Continue lastError)
    else throw (Err Error rate_limited_message)
  else if status response =? 403 then
    ret (Break (Some (Err Error blocked_message)))
  else throw (Err Error (api_error_message (status response))).

(** The [catch] block of one attempt. *)
Definition attempt_catch (retries attempt : nat) (e : thrown) : M step :=
  match e with
  | Err _ message =>
      if includes "Reddit" message then ret (Break (Some e))
      else if attempt <? retries then
        delay 2000 ;; ret (Continue (Some e))
      else ret (Continue (Some e))
  | NonError =>
      if attempt <? retries then
        delay 2000 ;; ret (Continue (Some (Err Error "Network error")))
      else ret (Continue (Some (Err Error "Network error")))
  end.

(** [for (let attempt = 0; attempt <= retries; attempt++) { ... }], entered
    at [attempt]; [fuel] bounds the passes still possible. *)
Fixpoint attempt_loop (tryUrl : string) (retries fuel attempt : nat)
    (lastError : option thrown) : M host_end :=
  match fuel with
  | 0 => ret (Exhausted lastError)
  | S fuel' =>
      if attempt <=? retries then
        s <- try_catch (attempt_try tryUrl retries attempt lastError)
                       (attempt_catch retries attempt) ;;
        match s with
        | Return r => ret (Returned r)
        | Break e => ret (Exhausted e)
        | Continue e => attempt_loop tryUrl retries fuel' (S attempt) e
        end
      else ret (Exhausted lastError)
  end.

(** [for (const tryUrl of urls) { ... }] and what follows it. *)
Fixpoint try_urls (urls : list string) (retries : nat)
    (lastError : option thrown) : M document :=
  match urls with
  | [] =>
      throw (match lastError with
             | Some e => e
             | None => Err Error "Failed to fetch from Reddit"
             end)
  | tryUrl :: rest =>
      h <- attempt_loop tryUrl retries (S retries) 0 lastError ;;
      match h with
      | Returned r =>
          match json_body r with
          | Parsed d => ret d
          | Unparsable msg => throw (Err SyntaxError msg)
          end
      | Exhausted e => try_urls rest retries e
      end
  end.

Definition fallback_url (url : string) : string :=
  replace "https://www.reddit.com" "https://old.reddit.com" url.

Definition fetchRedditJSON (url : string) (retries : nat) : M document :=
  try_urls [url; fallback_url url] retries None.

(* --------------------------------------------------------------------- *)
(** *** The media filter *)

Definition mediaHints : list string :=
  ["image"; "hosted:video"; "rich:video"; "gallery"].
Definition mediaExtensions : list string :=
  [".jpg"; ".jpeg"; ".png"; ".gif"; ".webp"].

(** [v !== undefined && v !== null] *)
Definition present (v : option json) : bool :=
  match v with
  | None | Some JNull => false
  | Some _ => true
  end.

(** [v === true] *)
Definition is_true (v : option json) : bool :=
  match v with
  | Some (JBool true) => true
  | _ => false
  end.

Definition isMediaPost (post : PostData) : bool :=
  let postHint := pd_post_hint post in
  if truthy_str postHint
     && existsb (String.eqb (or_empty postHint)) mediaHints then true
  else if is_true (pd_is_gallery post) then true
  else
    let url := or_empty (pd_url post) in
    if existsb (fun ext => endsWith ext (toLowerCase url)) mediaExtensions
    then true
    else if present (pd_preview post) then true
    else if present (pd_media post) then true
    else false.

Definition extractPost (postData : PostData) : RedditPost :=
  {| post_id := pd_id postData;
     post_title := pd_title postData;
     post_selftext := or_empty (pd_selftext postData);
     post_permalink := pd_permalink postData;
     post_url := pd_url postData;
     post_created_utc := pd_created_utc postData;
     post_score := pd_score postData |}.

(* --------------------------------------------------------------------- *)
(** *** Collecting posts *)

Definition maxAttempts : nat := 100.

(** The url of one page of the listing. *)
Definition listing_url (subreddit sortBy : string) (after : option string)
  : string :=
  let url :=
    "https://www.reddit.com/r/" +++ subreddit +++ "/" +++ sortBy
      +++ ".json?limit=100" in
  let url := if String.eqb sortBy "top" then url +++ "&t=all" else url in
  if truthy_str after then url +++ "&after=" +++ or_empty after else url.

(** The progress event sent after a post was pushed onto [allPosts]. *)
Definition post_progress (skipCount len : nat) : SSE :=
  let collectedAfterSkip := Nat.max 0 (len - skipCount) in
  if len <=? skipCount then
    progress 0 None None
      ("Skipping posts... (" +++ string_of_nat len +++ "/"
         +++ string_of_nat skipCount +++ ")")
  else
    progress collectedAfterSkip None None
      ("Found " +++ string_of_nat collectedAfterSkip
         +++ " text posts (skipped " +++ string_of_nat skipCount +++ ")...").

(** [for (const child of children) { ... }]: returns [allPosts] as the loop
    leaves it. *)
Fixpoint scan_children (sendProgress : SSE -> M unit)
    (skipCount totalNeeded : nat) (children : list PostData)
    (allPosts : list RedditPost) : M (list RedditPost) :=
  match children with
  | [] => ret allPosts
  | postData :: rest =>
      if negb (isMediaPost postData) then
        let allPosts := allPosts ++ [extractPost postData] in
        sendProgress (post_progress skipCount (length allPosts)) ;;
        if totalNeeded <=? length allPosts then ret allPosts
        else scan_children sendProgress skipCount totalNeeded rest allPosts
      else scan_children sendProgress skipCount totalNeeded rest allPosts
  end.

(** How one pass through the body of the page loop ends. *)
Inductive page_end : Type :=
| PageBreak (allPosts : list RedditPost)
| PageNext (allPosts : list RedditPost) (after : option string).

(** The [try] block of the page loop. *)
Definition page_try (subreddit sortBy : string)
    (sendProgress : SSE -> M unit) (skipCount totalNeeded : nat)
    (allPosts : list RedditPost) (after : option string) : M page_end :=
  data <- fetchRedditJSON (listing_url subreddit sortBy after) 2 ;;
  match data with
  | ListingDoc listing =>
      match listing_children listing with
      | None | Some [] => ret (PageBreak allPosts)
      | Some cs =>
          allPosts <- scan_children sendProgress skipCount totalNeeded
                        cs allPosts ;;
          if negb (truthy_str (listing_after listing)) then ret (PageBreak allPosts)
          else
            delay DELAY_BETWEEN_REQUESTS ;;
            ret (PageNext allPosts (listing_after listing))
      end
  | ArrayDoc _ =>
      throw (Err TypeError
               "Cannot read properties of undefined (reading 'children')")
  | OtherDoc type_error => throw (Err TypeError type_error)
  end.

(** [while (allPosts.length < totalNeeded && attempts < maxAttempts)],
    entered with [attempts] passes made; [fuel] bounds the passes left. *)
Fixpoint page_loop (subreddit sortBy : string)
    (sendProgress : SSE -> M unit) (skipCount totalNeeded : nat)
    (fuel attempts : nat) (allPosts : list RedditPost)
    (after : option string) : M (list RedditPost) :=
  match fuel with
  | 0 => ret allPosts
  | S fuel' =>
      if (length allPosts <? totalNeeded) && (attempts <? maxAttempts) then
        e <- try_catch
               (page_try subreddit sortBy sendProgress skipCount totalNeeded
                  allPosts after)
               (fun error => throw error) ;;
        match e with
        | PageBreak allPosts => ret allPosts
        | PageNext allPosts after =>
            page_loop subreddit sortBy sendProgress skipCount totalNeeded
              fuel' (S attempts) allPosts after
        end
      else ret allPosts
  end.

Definition fetchPosts (subreddit sortBy : string)
    (targetCount skipCount : nat) (sendProgress : SSE -> M unit)
  : M (list RedditPost) :=
  let totalNeeded := skipCount + targetCount in
  allPosts <- page_loop subreddit sortBy sendProgress skipCount totalNeeded
                maxAttempts 0 [] None ;;
  ret (slice skipCount (skipCount + targetCount) allPosts).

(* --------------------------------------------------------------------- *)
(** *** Collecting comments *)

Definition comments_url (permalink : string) : string :=
  "https://www.reddit.com" +++ permalink +++ ".json?limit=500&sort=top".

(** [!body || body === "[deleted]" || body === "[removed]"] *)
Definition unusable_body (body : option string) : bool :=
  negb (truthy_str body)
  || String.eqb (or_empty body) "[deleted]"
  || String.eqb (or_empty body) "[removed]".

(** [for (const child of children) { ... }] of [fetchComments]. *)
Fixpoint collect_comments (limit : nat) (children : list CommentData)
    (comments : list RedditComment) (rank : nat) : list RedditComment :=
  match children with
  | [] => comments
  | commentData :: rest =>
      if limit <=? length comments then comments
      else if unusable_body (cd_body commentData) then
        collect_comments limit rest comments rank
      else
        collect_comments limit rest
          (comments ++ [ {| comment_rank := rank;
                            comment_id := cd_id commentData;
                            comment_body := or_empty (cd_body commentData);
                            comment_score := cd_score commentData |} ])
          (S rank)
  end.

Definition fetchComments (permalink : string) (limit : nat)
  : M (list RedditComment) :=
  data <- fetchRedditJSON (comments_url permalink) 2 ;;
  match data with
  | ArrayDoc segments =>
      if length segments <? 2 then ret []
      else
        match nth_error segments 1 with
        | Some (CommentListing children) =>
            ret (collect_comments limit children [] 1)
        | Some (OtherSegment type_error) => throw (Err TypeError type_error)
        | None => ret []
        end
  | ListingDoc _ | OtherDoc _ => ret []
  end.

(* --------------------------------------------------------------------- *)
(** *** The [/api/scrape] handler of [registerRoutes] *)

Definition newline : string := String (ascii_of_nat 10) EmptyString.

(** [obj[key] = value] on an object whose members are kept in insertion
    order. *)
Fixpoint set_member (key value : string) (members : list (string * string))
  : list (string * string) :=
  match members with
  | [] => [(key, value)]
  | (k, v) :: rest =>
      if String.eqb k key then (k, value) :: rest
      else (k, v) :: set_member key value rest
  end.

(** [comments.forEach((comment, idx) => { flatItem[...] = comment.body })],
    from index [idx] on. *)
Fixpoint add_comments (comments : list RedditComment) (idx : nat)
    (flatItem : list (string * string)) : list (string * string) :=
  match comments with
  | [] => flatItem
  | comment :: rest =>
      add_comments rest (S idx)
        (set_member ("Kommentar " +++ string_of_nat (idx + 1))
                    (comment_body comment) flatItem)
  end.

Definition flat_item (post : RedditPost) (comments : list RedditComment)
  : ExportItem :=
  let flatItem :=
    [("Post",
      if truthy_str (Some (post_selftext post))
      then post_title post +++ newline +++ newline +++ post_selftext post
      else post_title post)] in
  FlatExportItem (add_comments comments 0 flatItem).

Definition export_item (mode : ExportMode) (post : RedditPost)
    (comments : list RedditComment) : ExportItem :=
  match mode with
  | clean => CleanExportItem post comments
  | flat_labels => flat_item post comments
  end.

Definition sendSSE (data : SSE) : M unit := emit (Write data).

(** The [try] block around one post. *)
Definition post_try (config : ScrapeConfig) (post : RedditPost)
    (totalComments : nat) (results : list ExportItem)
  : M (nat * list ExportItem) :=
  comments <- fetchComments (post_permalink post) (commentsPerPost config) ;;
  let totalComments := totalComments + length comments in
  let results := results ++ [export_item (exportMode config) post comments] in
  delay DELAY_BETWEEN_REQUESTS ;;
  ret (totalComments, results).

(** Its [catch] block. *)
Definition post_catch (post : RedditPost) (totalComments : nat)
    (results : list ExportItem) (e : thrown) : M (nat * list ExportItem) :=
  emit (ConsoleError
          ("Error fetching comments for post " +++ post_id post +++ ":") e) ;;
  ret (totalComments, results).

(** [for (let i = 0; i < posts.length; i++) { ... }], entered at index [i]
    with [rest] the posts from [posts[i]] on and [n] = [posts.length]. *)
Fixpoint post_loop (config : ScrapeConfig) (n : nat) (rest : list RedditPost)
    (i totalComments : nat) (results : list ExportItem)
  : M (nat * list ExportItem) :=
  match rest with
  | [] => ret (totalComments, results)
  | post :: rest' =>
      sendSSE (progress n (Some i) (Some totalComments)
                 ("Processing post " +++ string_of_nat (i + 1) +++ "/"
                    +++ string_of_nat n +++ "...")) ;;
      st <- try_catch (post_try config post totalComments results)
                      (post_catch post totalComments results) ;;
      post_loop config n rest' (S i) (fst st) (snd st)
  end.

Definition thrown_message (e : thrown) : string :=
  match e with
  | Err _ message => message
  | NonError => "An unknown error occurred"
  end.

(** The handler, from the point where the configuration has been accepted
    and the headers of the event stream have been sent. *)
Definition api_scrape (config : ScrapeConfig) : M unit :=
  try_catch
    (let skipMessage :=
       if 0 <? skipPosts config
       then "Fetching posts (will skip first "
              +++ string_of_nat (skipPosts config) +++ ")..."
       else "Fetching posts..." in
     sendSSE (progress 0 (Some 0) (Some 0) skipMessage) ;;
     posts <- fetchPosts (subreddit config) (sort_name (sortBy config))
                (postCount config) (skipPosts config) sendSSE ;;
     if length posts =? 0 then
       sendSSE (error "No text posts found in this subreddit.") ;;
       emit EndResponse
     else
       st <- post_loop config (length posts) posts 0 0 [] ;;
       let totalComments := fst st in
       let results := snd st in
       sendSSE (progress (length posts) (Some (length posts))
                  (Some totalComments) "Finalizing...") ;;
       let message :=
         if length posts <? postCount config
         then "Complete! Found " +++ string_of_nat (length posts)
                +++ " text posts (target was "
                +++ string_of_nat (postCount config) +++ ")."
         else "Complete! Collected " +++ string_of_nat (length posts)
                +++ " posts with " +++ string_of_nat totalComments
                +++ " comments." in
       sendSSE (complete message results) ;;
       emit EndResponse)
    (fun e =>
       sendSSE (error (thrown_message e)) ;;
       emit EndResponse).

End Network.

(* ===================================================================== *)
(** ** Notions of the specification *)
(* ===================================================================== *)


(** The children of a comment listing that carry a usable body. *)
Definition retained (children : list CommentData) : list CommentData :=
  filter (fun c => negb (unusable_body (cd_body c))) children.

(** Comments numbered in order, the first one with [rank]. *)
Fixpoint ranked (rank : nat) (children : list CommentData)
  : list RedditComment :=
  match children with
  | [] => []
  | c :: rest =>
      {| comment_rank := rank;
         comment_id := cd_id c;
         comment_body := or_empty (cd_body c);
         comment_score := cd_score c |} :: ranked (S rank) rest
  end.



(** The members of a flat record with the comments labelled [label 1],
    [label 2], ... *)
Definition labelled (label : string) (post : RedditPost)
    (comments : list RedditComment) : list (string * string) :=
  ("Post",
   match post_selftext post with
   | EmptyString => post_title post
   | _ => post_title post +++ newline +++ newline +++ post_selftext post
   end)
  :: map (fun nc => (label +++ " " +++ string_of_nat (fst nc),
                     comment_body (snd nc)))
         (combine (seq 1 (length comments)) comments).

Section Listing.

Variable net : nat -> string -> outcome.

(** The listing as the source hands it out from request clock [c] on: the
    children of the pages along the cursor chain, at most [fuel] pages, up
    to the first page that cannot be fetched, is empty or names no
    successor. *)
Fixpoint listing_pages (subreddit sortBy : string) (fuel : nat)
    (after : option string) (c : nat) : list (list PostData) :=
  match fuel with
  | 0 => []
  | S fuel' =>
      let r := fetchRedditJSON net (listing_url subreddit sortBy after) 2 c in
      match res r with
      | Ret (ListingDoc l) =>
          match listing_children l with
          | None | Some [] => []
          | Some cs =>
              cs :: (if truthy_str (listing_after l)
                     then listing_pages subreddit sortBy fuel'
                            (listing_after l) (now r)
                     else [])
          end
      | _ => []
      end
  end.

(** The qualifying (non-media) items of a sequence of pages, in order. *)
Definition qualifying (pages : list (list PostData)) : list PostData :=
  filter (fun p => negb (isMediaPost p)) (concat pages).


(** What the comment fetches of a run come back with, post by post, when the
    first of them starts at request clock [c]. *)
Fixpoint comment_attempts (limit : nat) (posts : list RedditPost) (c : nat)
  : list (RedditPost * result (list RedditComment)) :=
  match posts with
  | [] => []
  | post :: rest =>
      let r := fetchComments net (post_permalink post) limit c in
      (post, res r) :: comment_attempts limit rest (now r)
  end.

End Listing.

(** The posts whose comment fetch succeeded, with their comments. *)
Fixpoint succeeded (attempts : list (RedditPost * result (list RedditComment)))
  : list (RedditPost * list RedditComment) :=
  match attempts with
  | [] => []
  | (post, Ret comments) :: rest => (post, comments) :: succeeded rest
  | (_, Throw _) :: rest => succeeded rest
  end.

(** Their comment counts summed up, and their export records in order. *)
Definition collected (ok : list (RedditPost * list RedditComment)) : nat :=
  list_sum (map (fun pc => length (snd pc)) ok).

Definition exported (mode : ExportMode)
    (ok : list (RedditPost * list RedditComment)) : list ExportItem :=
  map (fun pc => export_item mode (fst pc) (snd pc)) ok.

(** The events written to the stream, and the [postsFound] fields of the
    progress events among them. *)
Fixpoint events (t : list io) : list SSE :=
  match t with
  | [] => []
  | Write e :: rest => e :: events rest
  | _ :: rest => events rest
  end.


Definition is_progress (e : SSE) : bool :=
  match e with
  | progress _ _ _ _ => true
  | _ => false
  end.

(** The requests a trace records, with their answers. *)
Fixpoint requests (t : list io) : list (string * outcome) :=
  match t with
  | [] => []
  | Fetch url o :: rest => (url, o) :: requests rest
  | _ :: rest => requests rest
  end.

Definition is_403 (o : outcome) : bool :=
  match o with
  | Responded r => status r =? 403
  | Rejected _ => false
  end.

(* ===================================================================== *)
(** ** Notions used in the proofs *)
(* ===================================================================== *)

(** [emits P m]: every action [m] performs satisfies [P]. *)
Definition emits {A : Type} (P : io -> Prop) (m : M A) : Prop :=
  forall c, Forall P (out (m c)).

(** An action of the fetcher: a request or a sleep. *)
Definition network_action (a : io) : Prop :=
  match a with
  | Fetch _ _ | Sleep _ => True
  | _ => False
  end.

(** The posts a page adds to [allPosts], and the events it sends. *)
Definition page_posts (totalNeeded : nat) (cs : list PostData)
    (allPosts : list RedditPost) : list RedditPost :=
  firstn (totalNeeded - length allPosts) (map extractPost (qualifying [cs])).

Definition page_events (skipCount from count : nat) : list SSE :=
  map (post_progress skipCount) (seq (S from) count).

(** The progress event that opens the per-post pass for [posts[i]]. *)
Definition processing (n i totalComments : nat) : SSE :=
  progress n (Some i) (Some totalComments)
    ("Processing post " +++ string_of_nat (i + 1) +++ "/"
       +++ string_of_nat n +++ "...").

(** An event of the per-post loop of a run that found [n] posts. *)
Definition loop_event (n : nat) (e : SSE) : Prop :=
  exists i total message, e = progress n (Some i) (Some total) message.

(** The first event of a run, the last progress event and the message of
    the [complete] event. *)
Definition opening (config : ScrapeConfig) : SSE :=
  progress 0 (Some 0) (Some 0)
    (if 0 <? skipPosts config
     then "Fetching posts (will skip first "
            +++ string_of_nat (skipPosts config) +++ ")..."
     else "Fetching posts...").

Definition finalizing (n totalComments : nat) : SSE :=
  progress n (Some n) (Some totalComments) "Finalizing...".

Definition summary (config : ScrapeConfig) (n totalComments : nat) : string :=
  if n <? postCount config
  then "Complete! Found " +++ string_of_nat n
         +++ " text posts (target was "
         +++ string_of_nat (postCount config) +++ ")."
  else "Complete! Collected " +++ string_of_nat n
         +++ " posts with " +++ string_of_nat totalComments
         +++ " comments.".

(** What [response.json()] makes of an accepted response, and the error
    thrown when both hosts are exhausted. *)
Definition parsed (r : response) : result document :=
  match json_body r with
  | Parsed d => Ret d
  | Unparsable msg => Throw (Err SyntaxError msg)
  end.

Definition final_error (lastError : option thrown) : thrown :=
  match lastError with
  | Some e => e
  | None => Err Error "Failed to fetch from Reddit"
  end.

(* ===================================================================== *)
(** ** Some concrete networks *)
(* ===================================================================== *)

Definition ok (d : document) : outcome :=
  Responded {| status := 200; json_body := Parsed d |}.

Definition http (st : nat) : outcome :=
  Responded {| status := st; json_body := Unparsable "" |}.

Definition text_post (id : string) : PostData :=
  {| pd_id := id; pd_title := "Title " +++ id; pd_selftext := Some "text";
     pd_permalink := "/r/rocq/comments/" +++ id;
     pd_url := Some ("https://www.reddit.com/r/rocq/comments/" +++ id);
     pd_created_utc := 0%Z; pd_score := 1%Z;
     pd_post_hint := None; pd_is_gallery := None;
     pd_preview := None; pd_media := None |}.

Definition image_post (id : string) : PostData :=
  {| pd_id := id; pd_title := "Title " +++ id; pd_selftext := None;
     pd_permalink := "/r/rocq/comments/" +++ id;
     pd_url := Some "https://i.redd.it/picture.PNG";
     pd_created_utc := 0%Z; pd_score := 1%Z;
     pd_post_hint := Some "image"; pd_is_gallery := None;
     pd_preview := None; pd_media := None |}.

Definition reply (id : string) (body : option string) : CommentData :=
  {| cd_id := id; cd_body := body; cd_score := 3%Z |}.

Definition thread : document :=
  ArrayDoc [CommentListing [];
            CommentListing [reply "c1" (Some "hi"); reply "c2" (Some "[deleted]");
                            reply "c3" None; reply "c4" (Some "yo")]].

(** One page with two text posts and an image; the comments of the first
    text post are refused with 403 by both hosts, those of the second are
    served after one 429. *)
Definition blocked_once (n : nat) (url : string) : outcome :=
  match n with
  | 0 => ok (ListingDoc {| listing_children :=
                             Some [text_post "a"; image_post "b"; text_post "c"];
                           listing_after := None |})
  | 1 => http 403
  | 2 => http 403
  | 3 => http 429
  | _ => ok thread
  end.


Definition sample_config (mode : ExportMode) : ScrapeConfig :=
  {| subreddit := "rocq"; postCount := 5; skipPosts := 0;
     commentsPerPost := 10; sortBy := new; exportMode := mode |}.

Definition sample_post : RedditPost := extractPost (text_post "a").
Definition sample_comments : list RedditComment :=
  ranked 1 [reply "c1" (Some "hi"); reply "c4" (Some "yo")].

(* ===================================================================== *)
(** ** Answers of a host, as [fetchRedditJSON] tells them apart *)
(* ===================================================================== *)

(** An answer 429. *)
Definition rate_limited (o : outcome) : bool :=
  match o with
  | Responded r => status r =? 429
  | Rejected _ => false
  end.

(** A rejected [fetch] whose error does not mention "Reddit". *)
Definition network_error (o : outcome) : bool :=
  match o with
  | Responded _ => false
  | Rejected (Err _ message) => negb (includes "Reddit" message)
  | Rejected NonError => true
  end.

(** An answer after which the same host is asked again, while attempts are
    left. *)
Definition transient (o : outcome) : bool :=
  rate_limited o || network_error o.

(** The pause before the next attempt that follows a transient answer to
    attempt number [attempt]. *)
Definition pause (attempt : nat) (o : outcome) : nat :=
  if rate_limited o then 5000 * (attempt + 1) else 2000.

(** The error a transient answer leaves behind when it was the last attempt
    on its host. *)
Definition exhaustion_error (o : outcome) : thrown :=
  match o with
  | Responded _ => Err Error rate_limited_message
  | Rejected (Err class message) => Err class message
  | Rejected NonError => Err Error "Network error"
  end.

(** The error of an answer after which the host is given up at once: a
    status that is neither a success nor 429, or a rejection whose message
    mentions "Reddit". *)
Definition fatal_error (o : outcome) : option thrown :=
  match o with
  | Responded r =>
      if is_ok r then None
      else if status r =? 429 then None
      else if status r =? 403 then Some (Err Error blocked_message)
      else Some (Err Error (api_error_message (status r)))
  | Rejected (Err class message) =>
      if includes "Reddit" message then Some (Err class message) else None
  | Rejected NonError => None
  end.

(** The requests and pauses of one host that answers [k] times transiently,
    the first request being number [c] of the run and attempt [attempt]. *)
Definition retried (net : nat -> string -> outcome) (url : string)
    (c attempt k : nat) : list io :=
  flat_map (fun i => [Fetch url (net (c + i) url);
                      Sleep (pause (attempt + i) (net (c + i) url))])
           (seq 0 k).

(** The pauses a trace records. *)
Fixpoint sleeps (t : list io) : list nat :=
  match t with
  | [] => []
  | Sleep ms :: rest => ms :: sleeps rest
  | _ :: rest => sleeps rest
  end.

(** A network that answers 429 twice and then serves a thread, and one
    that answers 429 to every request. *)
Definition limited_twice (n : nat) (url : string) : outcome :=
  match n with
  | 0 | 1 => http 429
  | _ => ok thread
  end.

Definition always_limited (n : nat) (url : string) : outcome := http 429.

(** [k] transient answers in a row from one host, from request number [c]
    on. *)
Definition transient_run (net : nat -> string -> outcome) (url : string)
    (c k : nat) : bool :=
  forallb (fun i => transient (net (c + i) url)) (seq 0 k).

(** The error with which a host is given up on the answer to attempt number
    [attempt]: a fatal answer at any attempt, a transient one at the last. *)
Definition gives_up (retries attempt : nat) (o : outcome) : option thrown :=
  match fatal_error o with
  | Some e => Some e
  | None =>
      if transient o && (attempt =? retries) then Some (exhaustion_error o)
      else None
  end.

(** A network that fails to connect, answers 500, then 429, then serves a
    thread. *)
Definition flaky (n : nat) (url : string) : outcome :=
  match n with
  | 0 => Rejected NonError
  | 1 => http 500
  | 2 => http 429
  | _ => ok thread
  end.

(** A pause [fetchRedditJSON] can make with [retries] retries: 2000 ms, or
    5000 ms times the number of an attempt that is not the last. *)
Definition retry_pause (retries ms : nat) : Prop :=
  ms = 2000 \/ exists attempt, attempt < retries /\ ms = 5000 * (attempt + 1).

(** An error object, as against any other thrown value. *)
Definition is_Error (e : thrown) : Prop :=
  match e with
  | Err _ _ => True
  | NonError => False
  end.

(** A listing request of [fetchPosts]: to a page of the listing of
    [subreddit] sorted by [sortBy], on either host. *)
Definition listing_request (subreddit sortBy url : string) : Prop :=
  exists after,
    url = listing_url subreddit sortBy after
    \/ url = fallback_url (listing_url subreddit sortBy after).

(** A comment request for one of [posts], on either host. *)
Definition comment_request (posts : list RedditPost) (url : string) : Prop :=
  exists post,
    In post posts
    /\ (url = comments_url (post_permalink post)
        \/ url = fallback_url (comments_url (post_permalink post))).

(** A network that serves the same document to every request. *)
Definition serves (d : document) (n : nat) (url : string) : outcome := ok d.

(** The [postsProcessed] and the [commentsCollected] fields of the progress
    events that carry one. *)
Fixpoint processed (es : list SSE) : list nat :=
  match es with
  | [] => []
  | progress _ (Some n) _ _ :: rest => n :: processed rest
  | _ :: rest => processed rest
  end.

Fixpoint counted (es : list SSE) : list nat :=
  match es with
  | [] => []
  | progress _ _ (Some n) _ :: rest => n :: counted rest
  | _ :: rest => counted rest
  end.

(** What a trace records as written with [console.error]. *)
Fixpoint logged (t : list io) : list (string * thrown) :=
  match t with
  | [] => []
  | ConsoleError text e :: rest => (text, e) :: logged rest
  | _ :: rest => logged rest
  end.

(** The posts whose comment fetch failed, as the handler logs them. *)
Fixpoint failures (attempts : list (RedditPost * result (list RedditComment)))
  : list (string * thrown) :=
  match attempts with
  | [] => []
  | (post, Throw e) :: rest =>
      ("Error fetching comments for post " +++ post_id post +++ ":", e)
        :: failures rest
  | (_, Ret _) :: rest => failures rest
  end.


(** [throws P m]: whatever [m] throws satisfies [P]. *)
Definition throws {A : Type} (P : thrown -> Prop) (m : M A) : Prop :=
  forall c e, res (m c) = Throw e -> P e.

(** A network whose listing cannot be reached. *)
Definition unreachable (n : nat) (url : string) : outcome :=
  Rejected (Err TypeError "fetch failed").

(* ===================================================================== *)
(** ** The page that starts a run and follows its event stream *)
(* ===================================================================== *)

(** [s.split(sep)] for a separator of one character. *)
Fixpoint split (sep : ascii) (s : string) : list string :=
  match s with
  | EmptyString => [EmptyString]
  | String ch rest =>
      if Ascii.eqb ch sep then EmptyString :: split sep rest
      else match split sep rest with
           | [] => [String ch EmptyString]
           | line :: lines => String ch line :: lines
           end
  end.

(** [s.startsWith(prefix)] *)
Definition startsWith (prefix s : string) : bool := String.prefix prefix s.

(** [s.slice(n)] for a whole, non-negative [n]. *)
Fixpoint slice_from (n : nat) (s : string) : string :=
  match n, s with
  | 0, _ => s
  | S n', EmptyString => EmptyString
  | S n', String _ rest => slice_from n' rest
  end.

(** [ScrapeProgress] of [shared/schema.ts]. *)
Inductive Status : Type :=
| status_idle | status_scraping | status_complete | status_error.

Record ScrapeProgress : Type := mkScrapeProgress {
  sp_postsFound : nat;
  sp_postsProcessed : nat;
  sp_commentsCollected : nat;
  sp_targetPosts : nat;
  sp_status : Status;
  sp_message : option string
}.

Record Toast : Type := mkToast {
  toast_title : string;
  toast_description : string;
  toast_variant : option string
}.

(** The state of the component [Home] that [startScraping] touches: the two
    [useState] cells and the toasts shown so far. *)
Record Home : Type := mkHome {
  home_progress : ScrapeProgress;
  home_exportData : option (list ExportItem);
  home_toasts : list Toast
}.

Definition setProgress (update : ScrapeProgress -> ScrapeProgress)
    (st : Home) : Home :=
  {| home_progress := update (home_progress st);
     home_exportData := home_exportData st;
     home_toasts := home_toasts st |}.

Definition setExportData (data : option (list ExportItem)) (st : Home)
  : Home :=
  {| home_progress := home_progress st;
     home_exportData := data;
     home_toasts := home_toasts st |}.

Definition toast (t : Toast) (st : Home) : Home :=
  {| home_progress := home_progress st;
     home_exportData := home_exportData st;
     home_toasts := home_toasts st ++ [t] |}.

(** [value ?? fallback] *)
Definition nullish {A : Type} (value : option A) (fallback : A) : A :=
  match value with
  | Some v => v
  | None => fallback
  end.

(** What [JSON.parse] makes of a line: it throws a [SyntaxError], or returns
    [null], an event of the stream, or any other value (one whose [type] is
    none of the three the page knows). *)
Inductive parsed_line : Type :=
| NotJSON
| NullValue
| EventLine (data : SSE)
| OtherValue.

(** How a step of the page ends: normally, or with a thrown value; in both
    cases with the state as the step left it. *)
Inductive handled : Type :=
| Went (st : Home)
| Thrown (e : thrown) (st : Home).

(** The response to [fetch("/api/scrape", ...)]: the request fails; the
    response is not ok, and [response.json()] gives an object with or
    without a [message] or throws; the response is ok without a body; or it
    is ok and its reader hands out chunks (as [decoder.decode] returns them)
    until the stream is done or a [read] fails. *)
Inductive scrape_response : Type :=
| FetchFailed (e : thrown)
| NotOk (error : result (option string))
| NoBody
| Body (chunks : list string) (ending : option thrown).

Section Page.

(** [JSON.parse] on the lines of the stream. *)
Variable JSON_parse : string -> parsed_line.

(** The body of the inner [try] for a parsed line. *)
Definition on_data (data : SSE) (st : Home) : handled :=
  match data with
  | progress postsFound postsProcessed commentsCollected message =>
      Went (setProgress
              (fun prev =>
                 {| sp_postsFound := nullish (Some postsFound)
                                       (sp_postsFound prev);
                    sp_postsProcessed := nullish postsProcessed
                                           (sp_postsProcessed prev);
                    sp_commentsCollected := nullish commentsCollected
                                              (sp_commentsCollected prev);
                    sp_targetPosts := sp_targetPosts prev;
                    sp_status := sp_status prev;
                    sp_message := Some message |}) st)
  | complete message data =>
      Went (setExportData (Some data)
              (setProgress
                 (fun prev =>
                    {| sp_postsFound := sp_postsFound prev;
                       sp_postsProcessed := sp_postsProcessed prev;
                       sp_commentsCollected := sp_commentsCollected prev;
                       sp_targetPosts := sp_targetPosts prev;
                       sp_status := status_complete;
                       sp_message := Some message |}) st))
  | error message => Thrown (Err Error message) st
  end.

(** The body of [for (const line of lines)]. *)
Definition on_line (line : string) (st : Home) : handled :=
  if startsWith "data: " line then
    match JSON_parse (slice_from 6 line) with
    | NotJSON => Went st
    | NullValue =>
        Thrown (Err TypeError
                  "Cannot read properties of null (reading 'type')") st
    | EventLine data => on_data data st
    | OtherValue => Went st
    end
  else Went st.

Fixpoint on_lines (lines : list string) (st : Home) : handled :=
  match lines with
  | [] => Went st
  | line :: rest =>
      match on_line line st with
      | Went st' => on_lines rest st'
      | Thrown e st' => Thrown e st'
      end
  end.

(** [while (true) { ... }] over the chunks the reader hands out. *)
Fixpoint read_loop (chunks : list string) (ending : option thrown)
    (buffer : string) (st : Home) : handled :=
  match chunks with
  | [] =>
      match ending with
      | None => Went st
      | Some e => Thrown e st
      end
  | value :: rest =>
      let buffer := buffer +++ value in
      let lines := split (ascii_of_nat 10) buffer in
      let buffer := last lines "" in
      let lines := removelast lines in
      match on_lines lines st with
      | Went st' => read_loop rest ending buffer st'
      | Thrown e st' => Thrown e st'
      end
  end.

Definition startScraping (config : ScrapeConfig) (response : scrape_response)
    (st : Home) : Home :=
  let st :=
    setProgress
      (fun _ => {| sp_postsFound := 0;
                   sp_postsProcessed := 0;
                   sp_commentsCollected := 0;
                   sp_targetPosts := postCount config;
                   sp_status := status_scraping;
                   sp_message := Some "Starting scrape..." |}) st in
  let st := setExportData None st in
  let tried :=
    match response with
    | FetchFailed e => Thrown e st
    | NotOk (Ret message) =>
        Thrown (Err Error (if truthy_str message then or_empty message
                           else "Failed to start scraping")) st
    | NotOk (Throw e) => Thrown e st
    | NoBody => Thrown (Err Error "No response body") st
    | Body chunks ending => read_loop chunks ending "" st
    end in
  match tried with
  | Went st => st
  | Thrown e st =>
      let message :=
        match e with
        | Err _ message => message
        | NonError => "An error occurred"
        end in
      toast {| toast_title := "Scraping failed";
               toast_description := message;
               toast_variant := Some "destructive" |}
        (setProgress
           (fun prev =>
              {| sp_postsFound := sp_postsFound prev;
                 sp_postsProcessed := sp_postsProcessed prev;
                 sp_commentsCollected := sp_commentsCollected prev;
                 sp_targetPosts := sp_targetPosts prev;
                 sp_status := status_error;
                 sp_message := Some message |}) st)
  end.

End Page.

(** The state of [Home] before the first run. *)
Definition initial_home : Home :=
  {| home_progress :=
       {| sp_postsFound := 0; sp_postsProcessed := 0;
          sp_commentsCollected := 0; sp_targetPosts := 200;
          sp_status := status_idle; sp_message := None |};
     home_exportData := None;
     home_toasts := [] |}.

(** What [sendSSE] writes to the response for an event, given
    [JSON.stringify], and the text of the response a trace amounts to. *)
Definition sse_frame (JSON_stringify : SSE -> string) (data : SSE) : string :=
  "data: " +++ JSON_stringify data +++ newline +++ newline.

Definition response_text (JSON_stringify : SSE -> string) (es : list SSE)
  : string :=
  String.concat "" (map (sse_frame JSON_stringify) es).

(** A string without a line feed. *)
Fixpoint single_line (s : string) : bool :=
  match s with
  | EmptyString => true
  | String ch rest => negb (Ascii.eqb ch (ascii_of_nat 10)) && single_line rest
  end.

(** [JSON.stringify] and [JSON.parse] agree on an event: the text is one
    line and parses back to the event. *)
Definition round_trips (JSON_stringify : SSE -> string)
    (JSON_parse : string -> parsed_line) (data : SSE) : Prop :=
  single_line (JSON_stringify data) = true
  /\ JSON_parse (JSON_stringify data) = EventLine data.

(** The state after an event was handled, and after a sequence of events. *)
Definition absorb (data : SSE) (st : Home) : Home :=
  match on_data data st with
  | Went st' => st'
  | Thrown _ st' => st'
  end.

Definition absorbed (es : list SSE) (st : Home) : Home :=
  fold_left (fun st data => absorb data st) es st.

(** The complete lines of the text of a response. *)
Definition frame_lines (JSON_stringify : SSE -> string) (es : list SSE)
  : list string :=
  flat_map (fun data => ["data: " +++ JSON_stringify data; ""]) es.

(** The toast of a failed run. *)
Definition failure_toast (message : string) : Toast :=
  {| toast_title := "Scraping failed";
     toast_description := message;
     toast_variant := Some "destructive" |}.

(** A codec that knows the two events of a run on [unreachable]. *)
Definition sample_stringify (data : SSE) : string :=
  match data with
  | progress _ _ _ _ => "progress"
  | complete _ _ => "complete"
  | error _ => "error"
  end.

Definition sample_parse (text : string) : parsed_line :=
  if String.eqb text "progress"
  then EventLine (progress 0 (Some 0) (Some 0) "Fetching posts...")
  else if String.eqb text "error" then EventLine (error "fetch failed")
  else NotJSON.

(** The text of that run, cut in the middle of its lines. *)
Definition sample_chunks : list string :=
  ["data: prog"; "ress" +++ newline; newline +++ "data: er";
   "ror" +++ newline +++ newline].

(** The state in which [startScraping] enters its [try] block, and the
    state in which it ends, given how the block ended. *)
Definition started (config : ScrapeConfig) (st : Home) : Home :=
  setExportData None
    (setProgress
       (fun _ => {| sp_postsFound := 0;
                    sp_postsProcessed := 0;
                    sp_commentsCollected := 0;
                    sp_targetPosts := postCount config;
                    sp_status := status_scraping;
                    sp_message := Some "Starting scrape..." |}) st).

Definition settled (tried : handled) : Home :=
  match tried with
  | Went st => st
  | Thrown e st =>
      let message :=
        match e with
        | Err _ message => message
        | NonError => "An error occurred"
        end in
      toast {| toast_title := "Scraping failed";
               toast_description := message;
               toast_variant := Some "destructive" |}
        (setProgress
           (fun prev =>
              {| sp_postsFound := sp_postsFound prev;
                 sp_postsProcessed := sp_postsProcessed prev;
                 sp_commentsCollected := sp_commentsCollected prev;
                 sp_targetPosts := sp_targetPosts prev;
                 sp_status := status_error;
                 sp_message := Some message |}) st)
  end.

(* ===================================================================== *)
(** ** The request: [scrapeConfigSchema.safeParse] and the route *)
(* ===================================================================== *)

(** The body of a request to [/api/scrape] when it is an object: the
    members the schema reads, [None] for an absent one.  Numbers are whole,
    as everywhere in this development. *)
Record RequestBody : Type := mkRequestBody {
  body_subreddit : option json;
  body_postCount : option json;
  body_skipPosts : option json;
  body_commentsPerPost : option json;
  body_sortBy : option json;
  body_exportMode : option json
}.

(** [z.string().min(1, ...)] *)
Definition parse_name (value : option json) : option string :=
  match value with
  | Some (JStr s) => if 1 <=? String.length s then Some s else None
  | _ => None
  end.

(** [z.number().min(min).max(max).default(default)] *)
Definition parse_number (min max default : Z) (value : option json)
  : option nat :=
  match value with
  | None => Some (Z.to_nat default)
  | Some (JNum n) =>
      if (Z.leb min n && Z.leb n max)%bool then Some (Z.to_nat n) else None
  | Some _ => None
  end.

(** [z.enum([...]).default(default)], the options given with their
    values. *)
Definition parse_enum {A : Type} (options : list (string * A)) (default : A)
    (value : option json) : option A :=
  match value with
  | None => Some default
  | Some (JStr s) =>
      match find (fun o => String.eqb (fst o) s) options with
      | Some o => Some (snd o)
      | None => None
      end
  | Some _ => None
  end.

Definition mode_name (m : ExportMode) : string :=
  match m with
  | clean => "clean"
  | flat_labels => "flat_labels"
  end.

(** [scrapeConfigSchema.safeParse(req.body)]: the configuration when the
    body is accepted; [None] stands for a body that is no object. *)
Definition safeParse (body : option RequestBody) : option ScrapeConfig :=
  match body with
  | None => None
  | Some b =>
      match parse_name (body_subreddit b),
            parse_number 1 1000 200 (body_postCount b),
            parse_number 0 5000 0 (body_skipPosts b),
            parse_number 1 200 10 (body_commentsPerPost b),
            parse_enum [("top", top); ("new", new); ("hot", hot)] top
              (body_sortBy b),
            parse_enum [("clean", clean); ("flat_labels", flat_labels)] clean
              (body_exportMode b)
      with
      | Some subreddit, Some postCount, Some skipPosts, Some commentsPerPost,
        Some sortBy, Some exportMode =>
          Some {| subreddit := subreddit; postCount := postCount;
                  skipPosts := skipPosts; commentsPerPost := commentsPerPost;
                  sortBy := sortBy; exportMode := exportMode |}
      | _, _, _, _, _, _ => None
      end
  end.

(** What the route does with the response: the calls on [res] before the
    event stream, and the actions of the run. *)
Inductive route_action : Type :=
| SendStatus (code : nat)
| SendJson (message : string)
| SetHeader (name value : string)
| FlushHeaders
| Run (a : io).

Section Route.

Variable net : nat -> string -> outcome.

(** [parseResult.error.message], the issues as zod renders them. *)
Variable error_message : option RequestBody -> string.

(** The handler of [app.post("/api/scrape", ...)]. *)
Definition scrape_route (body : option RequestBody) (c : nat)
  : list route_action :=
  match safeParse body with
  | None => [SendStatus 400; SendJson (error_message body)]
  | Some config =>
      [SetHeader "Content-Type" "text/event-stream";
       SetHeader "Cache-Control" "no-cache";
       SetHeader "Connection" "keep-alive";
       FlushHeaders]
        ++ map Run (out (api_scrape net config c))
  end.

End Route.

(** The actions of the run in what the route does. *)
Fixpoint run_actions (t : list route_action) : list io :=
  match t with
  | [] => []
  | Run a :: rest => a :: run_actions rest
  | _ :: rest => run_actions rest
  end.

(** The body the page sends: [JSON.stringify(config)], as the server's JSON
    middleware hands it to the route. *)
Definition request_body (config : ScrapeConfig) : RequestBody :=
  {| body_subreddit := Some (JStr (subreddit config));
     body_postCount := Some (JNum (Z.of_nat (postCount config)));
     body_skipPosts := Some (JNum (Z.of_nat (skipPosts config)));
     body_commentsPerPost := Some (JNum (Z.of_nat (commentsPerPost config)));
     body_sortBy := Some (JStr (sort_name (sortBy config)));
     body_exportMode := Some (JStr (mode_name (exportMode config))) |}.

(** A state of a run under way for the target [target], with the toasts
    [toasts] shown before it: the status is "scraping" or "complete". *)
Definition under_way (target : nat) (toasts : list Toast) (st : Home) : Prop :=
  sp_targetPosts (home_progress st) = target
  /\ home_toasts st = toasts
  /\ (sp_status (home_progress st) = status_scraping
      \/ sp_status (home_progress st) = status_complete).

(** The state a step ended with. *)
Definition state_of (h : handled) : Home :=
  match h with
  | Went st => st
  | Thrown _ st => st
  end.

(** A network whose listing has one page of two text posts that names a
    successor. *)
Definition long_listing (n : nat) (url : string) : outcome :=
  ok (ListingDoc {| listing_children := Some [text_post "a"; text_post "c"];
                    listing_after := Some "t3_c" |}).

(* ===================================================================== *)
(** ** Properties *)
(* ===================================================================== *)

#[global] Arguments fetchRedditJSON : simpl never.
#[global] Arguments comments_url : simpl never.
#[global] Arguments listing_url : simpl never.
#[global] Arguments string_of_nat : simpl never.

#[global] Opaque maxAttempts.

(** *** The accepted configurations *)

Lemma scrapeConfigSchema_bounds (config : ScrapeConfig) :
  scrapeConfigSchema config = true ->
  1 <= postCount config <= 1000
  /\ skipPosts config <= 5000
  /\ 1 <= commentsPerPost config <= 200.
Proof.
  unfold scrapeConfigSchema. intros H.
  repeat (apply andb_prop in H as [H ?]).
  repeat match goal with
         | H : (_ <=? _) = true |- _ => apply Nat.leb_le in H
         end.
  lia.
Qed.

(** *** Decimal numerals and object members *)

Lemma string_of_nat_inj (a b : nat) :
  string_of_nat a = string_of_nat b -> a = b.
Proof.
  unfold string_of_nat. intros H.
  apply (f_equal NilEmpty.uint_of_string) in H.
  rewrite !NilEmpty.usu in H.
  injection H as H. now apply Unsigned.to_uint_inj.
Qed.

Lemma kommentar_key_inj (a b : nat) :
  "Kommentar " +++ string_of_nat a = "Kommentar " +++ string_of_nat b -> a = b.
Proof.
  cbn. intros H. injection H as H. now apply string_of_nat_inj.
Qed.

Lemma set_member_fresh (key value : string) (members : list (string * string)) :
  ~ In key (map fst members) ->
  set_member key value members = members ++ [(key, value)].
Proof.
  induction members as [| [k v] rest IH]; cbn; intros Hfresh.
  - reflexivity.
  - destruct (String.eqb_spec k key) as [-> | Hne].
    + exfalso. apply Hfresh. now left.
    + rewrite IH; [reflexivity |]. intros Hin. apply Hfresh. now right.
Qed.

Lemma add_comments_appends (comments : list RedditComment) :
  forall (idx : nat) (flatItem : list (string * string)),
    (forall k j, In k (map fst flatItem) -> idx < j ->
                 k <> "Kommentar " +++ string_of_nat j) ->
    add_comments comments idx flatItem
    = flatItem
        ++ map (fun nc => ("Kommentar " +++ string_of_nat (fst nc),
                           comment_body (snd nc)))
               (combine (seq (idx + 1) (length comments)) comments).
Proof.
  induction comments as [| x rest IH]; intros idx flatItem Hfresh.
  - cbn. now rewrite app_nil_r.
  - cbn [add_comments length seq combine map fst snd].
    rewrite set_member_fresh.
    + rewrite IH.
      * rewrite <- app_assoc. cbn [app].
        now replace (S idx + 1) with (S (idx + 1)) by lia.
      * intros k j Hin Hj. rewrite map_app in Hin. apply in_app_or in Hin.
        destruct Hin as [Hin | [<- | []]].
        -- apply Hfresh; [assumption | lia].
        -- cbn [fst]. intros Heq. apply kommentar_key_inj in Heq. lia.
    + intros Hin. apply (Hfresh _ (idx + 1) Hin); [lia | reflexivity].
Qed.

(** *** The comment loop *)

Lemma collect_comments_spec (limit : nat) (children : list CommentData) :
  forall (comments : list RedditComment) (rank : nat),
    collect_comments limit children comments rank
    = comments ++ ranked rank (firstn (limit - length comments)
                                      (retained children)).
Proof.
  induction children as [| c rest IH]; intros comments rank.
  - cbn. now rewrite firstn_nil, app_nil_r.
  - cbn [collect_comments retained filter].
    destruct (Nat.leb_spec limit (length comments)) as [Hfull | Hroom].
    + replace (limit - length comments) with 0 by lia.
      cbn. now rewrite app_nil_r.
    + destruct (unusable_body (cd_body c)); cbn [negb].
      * apply IH.
      * rewrite IH, length_app. cbn [length].
        replace (limit - length comments)
          with (S (limit - (length comments + 1))) by lia.
        cbn [firstn ranked]. now rewrite <- app_assoc.
Qed.








(** *** Claims about [fetchComments] and the flat record *)





(** Outside the scope of C8: an array whose second element is no listing
    makes [fetchComments] fail although the fetch succeeded. *)
Lemma fetchComments_type_error (net : nat -> string -> outcome)
    (permalink : string) (limit c : nat) (s0 : Segment) (msg : string)
    (more : list Segment) :
  res (fetchRedditJSON net (comments_url permalink) 2 c)
  = Ret (ArrayDoc (s0 :: OtherSegment msg :: more)) ->
  res (fetchComments net permalink limit c) = Throw (Err TypeError msg).
Proof.
  intros Hfetch. unfold fetchComments, bind. now rewrite Hfetch.
Qed.

(** C3, as the code has it.  The flat record of a post has the member
    ["Post"], holding the title when the body is empty and the title, two
    newlines and the body otherwise, followed by one member
    ["Kommentar N"] per comment, in the order of the comments, N running
    from 1 to their number. *)
Theorem flat_item_members (post : RedditPost) (comments : list RedditComment) :
  flat_item post comments
  = FlatExportItem (labelled "Kommentar" post comments).
Proof.
  unfold flat_item, labelled. f_equal.
  rewrite add_comments_appends.
  - cbn [app]. f_equal. f_equal.
    now destruct (post_selftext post).
  - intros k j [<- | []] _. cbn. discriminate.
Qed.

(** C3 as the specification words it, with the label ["Comment N"], fails:
    the record of a post with two comments has no such members. *)
Lemma flat_item_not_Comment :
  flat_item sample_post sample_comments
  <> FlatExportItem (labelled "Comment" sample_post sample_comments).
Proof. vm_compute. discriminate. Qed.

(** *** Running computations *)

Lemma bind_Ret {A B : Type} (m : M A) (f : A -> M B) (c : nat) (a : A) :
  res (m c) = Ret a ->
  bind m f c
  = mkRun (res (f a (now (m c)))) (now (f a (now (m c))))
          (out (m c) ++ out (f a (now (m c)))).
Proof. intros H. unfold bind. now rewrite H. Qed.

Lemma bind_Throw {A B : Type} (m : M A) (f : A -> M B) (c : nat) (e : thrown) :
  res (m c) = Throw e ->
  bind m f c = mkRun (Throw e) (now (m c)) (out (m c)).
Proof. intros H. unfold bind. now rewrite H. Qed.

Lemma try_catch_Ret {A : Type} (m : M A) (h : thrown -> M A) (c : nat) (a : A) :
  res (m c) = Ret a -> try_catch m h c = m c.
Proof. intros H. unfold try_catch. now rewrite H. Qed.

Lemma try_catch_Throw {A : Type} (m : M A) (h : thrown -> M A) (c : nat)
    (e : thrown) :
  res (m c) = Throw e ->
  try_catch m h c
  = mkRun (res (h e (now (m c)))) (now (h e (now (m c))))
          (out (m c) ++ out (h e (now (m c)))).
Proof. intros H. unfold try_catch. now rewrite H. Qed.

Lemma try_catch_rethrow {A : Type} (m : M A) (c : nat) :
  try_catch m (fun error => throw error) c = m c.
Proof.
  unfold try_catch, throw. destruct (m c) as [[a | e] n t]; cbn;
    [reflexivity | now rewrite app_nil_r].
Qed.

Lemma bind_try_rethrow {A B : Type} (m : M A) (f : A -> M B) (c : nat) :
  bind (try_catch m (fun error => throw error)) f c = bind m f c.
Proof. unfold bind. now rewrite try_catch_rethrow. Qed.

Lemma emits_ret {A : Type} (P : io -> Prop) (a : A) : emits P (ret a).
Proof. intros c. constructor. Qed.

Lemma emits_throw {A : Type} (P : io -> Prop) (e : thrown) :
  emits P (@throw A e).
Proof. intros c. constructor. Qed.

Lemma emits_emit (P : io -> Prop) (a : io) : P a -> emits P (emit a).
Proof. intros H c. cbn. now constructor. Qed.

Lemma emits_bind {A B : Type} (P : io -> Prop) (m : M A) (f : A -> M B) :
  emits P m -> (forall a, emits P (f a)) -> emits P (bind m f).
Proof.
  intros Hm Hf c. unfold bind.
  destruct (res (m c)) as [a | e]; cbn.
  - apply Forall_app. split; [apply Hm | apply Hf].
  - apply Hm.
Qed.

Lemma emits_try_catch {A : Type} (P : io -> Prop) (m : M A)
    (h : thrown -> M A) :
  emits P m -> (forall e, emits P (h e)) -> emits P (try_catch m h).
Proof.
  intros Hm Hh c. unfold try_catch.
  destruct (res (m c)) as [a | e]; cbn.
  - apply Hm.
  - apply Forall_app. split; [apply Hm | apply Hh].
Qed.

Lemma emits_fetch (P : io -> Prop) (net : nat -> string -> outcome)
    (url : string) :
  (forall o, P (Fetch url o)) -> emits P (fetch net url).
Proof.
  intros H c. unfold fetch. destruct (net c url); cbn; constructor; auto.
Qed.

Create HintDb emits.
#[local] Hint Resolve emits_ret emits_throw emits_emit emits_bind
  emits_try_catch emits_fetch : emits.

Lemma attempt_loop_network (net : nat -> string -> outcome) (tryUrl : string)
    (retries fuel : nat) :
  forall attempt lastError,
    emits network_action (attempt_loop net tryUrl retries fuel attempt lastError).
Proof.
  induction fuel as [| fuel IH]; intros attempt lastError; cbn [attempt_loop].
  - apply emits_ret.
  - destruct (attempt <=? retries); [| apply emits_ret].
    apply emits_bind.
    + apply emits_try_catch.
      * unfold attempt_try, delay. apply emits_bind.
        -- now apply emits_fetch.
        -- intros r.
           repeat match goal with
                  | |- emits _ (if ?b then _ else _) => destruct b
                  end; auto 6 with emits; apply emits_bind;
             auto with emits; apply emits_emit; exact I.
      * intros e. unfold attempt_catch, delay.
        destruct e as [cl msg |];
          repeat match goal with
                 | |- emits _ (if ?b then _ else _) => destruct b
                 end; auto with emits; apply emits_bind;
            auto with emits; apply emits_emit; exact I.
    + intros [r | e | e]; auto with emits.
Qed.

Lemma fetchRedditJSON_network (net : nat -> string -> outcome) (url : string)
    (retries : nat) :
  emits network_action (fetchRedditJSON net url retries).
Proof.
  unfold fetchRedditJSON.
  generalize (@None thrown) as lastError.
  induction [url; fallback_url url] as [| u rest IH]; intros lastError;
    cbn [try_urls].
  - apply emits_throw.
  - apply emits_bind; [apply attempt_loop_network |].
    intros [r | e]; [| apply IH].
    destruct (json_body r); auto with emits.
Qed.

Lemma events_app (s t : list io) : events (s ++ t) = events s ++ events t.
Proof.
  induction s as [| a s IH]; cbn; [reflexivity |].
  destruct a; cbn; now rewrite ?IH.
Qed.


Lemma requests_app (s t : list io) :
  requests (s ++ t) = requests s ++ requests t.
Proof.
  induction s as [| a s IH]; cbn; [reflexivity |].
  destruct a; cbn; now rewrite ?IH.
Qed.

Lemma network_events (t : list io) : Forall network_action t -> events t = [].
Proof.
  induction 1 as [| a t Ha _ IH]; cbn; [reflexivity |].
  destruct a; cbn in *; try contradiction; assumption.
Qed.

Lemma fetchRedditJSON_events (net : nat -> string -> outcome) (url : string)
    (retries c : nat) :
  events (out (fetchRedditJSON net url retries c)) = [].
Proof. apply network_events, fetchRedditJSON_network. Qed.

(** *** The media filter *)


(** *** The page loop of [fetchPosts] *)

Lemma firstn_firstn_app {A : Type} (m : nat) (x y : list A) :
  firstn m (firstn m x ++ y) = firstn m (x ++ y).
Proof.
  destruct (Nat.le_ge_cases m (length x)) as [H | H].
  - rewrite !firstn_app, firstn_firstn, Nat.min_id, length_firstn.
    rewrite Nat.min_l by lia.
    replace (m - m) with 0 by lia. replace (m - length x) with 0 by lia.
    reflexivity.
  - now rewrite (firstn_all2 x) by lia.
Qed.

Lemma firstn_app_firstn {A : Type} (n : nat) (a x y : list A) :
  length a <= n ->
  firstn n ((a ++ firstn (n - length a) x) ++ y) = firstn n (a ++ x ++ y).
Proof.
  intros Hlen.
  rewrite <- app_assoc, (firstn_app n a), (firstn_app n a (x ++ y)).
  now rewrite firstn_firstn_app.
Qed.

Lemma firstn_app_all {A : Type} (n : nat) (a x : list A) :
  length a <= n ->
  a ++ firstn (n - length a) x = firstn n (a ++ x).
Proof.
  intros Hlen. now rewrite firstn_app, (firstn_all2 a) by lia.
Qed.

Lemma scan_children_run (skipCount totalNeeded : nat) (cs : list PostData) :
  forall (allPosts : list RedditPost) (c : nat),
    length allPosts < totalNeeded ->
    scan_children sendSSE skipCount totalNeeded cs allPosts c
    = mkRun (Ret (allPosts ++ page_posts totalNeeded cs allPosts)) c
        (map Write (page_events skipCount (length allPosts)
                      (length (page_posts totalNeeded cs allPosts)))).
Proof.
  unfold page_posts, page_events, qualifying.
  induction cs as [| p cs IH]; intros allPosts c Hroom.
  - cbn. now rewrite firstn_nil, app_nil_r.
  - cbn [scan_children concat app filter map] in *.
    rewrite app_nil_r in *.
    destruct (isMediaPost p); cbn [negb].
    + now apply IH.
    + unfold bind, sendSSE, emit. cbn [res now out map].
      rewrite length_app. cbn [length]. rewrite Nat.add_1_r.
      replace (totalNeeded - length allPosts)
        with (S (totalNeeded - S (length allPosts))) by lia.
      cbn [firstn length seq map].
      destruct (Nat.leb_spec totalNeeded (S (length allPosts))) as [Hfull | Hmore].
      * replace (totalNeeded - S (length allPosts)) with 0 by lia.
        cbn. reflexivity.
      * rewrite IH by (rewrite length_app; cbn; lia).
        cbn [res now out]. rewrite length_app. cbn [length].
        rewrite Nat.add_1_r, <- app_assoc. reflexivity.
Qed.

Section PageLoop.

Variable net : nat -> string -> outcome.
Variables subreddit sortBy : string.
Variables skipCount totalNeeded : nat.

Local Abbreviation page_fetch after c :=
  (fetchRedditJSON net (listing_url subreddit sortBy after) 2 c).

Lemma page_try_throw (allPosts : list RedditPost) (after : option string)
    (c : nat) (e : thrown) :
  res (page_fetch after c) = Throw e ->
  page_try net subreddit sortBy sendSSE skipCount totalNeeded allPosts after c
  = mkRun (Throw e) (now (page_fetch after c)) (out (page_fetch after c)).
Proof. intros H. unfold page_try. now rewrite (bind_Throw _ _ _ H). Qed.

Lemma page_try_not_listing (allPosts : list RedditPost)
    (after : option string) (c : nat) (d : document) :
  res (page_fetch after c) = Ret d ->
  (forall l, d <> ListingDoc l) ->
  exists e,
    page_try net subreddit sortBy sendSSE skipCount totalNeeded allPosts after c
    = mkRun (Throw e) (now (page_fetch after c))
            (out (page_fetch after c)).
Proof.
  intros H Hd. unfold page_try. rewrite (bind_Ret _ _ _ H).
  destruct d as [l | segs | msg]; [now contradiction (Hd l) | |];
    eexists; cbn; now rewrite app_nil_r.
Qed.

Lemma page_try_empty (allPosts : list RedditPost) (after : option string)
    (c : nat) (l : Listing) :
  res (page_fetch after c) = Ret (ListingDoc l) ->
  listing_children l = None \/ listing_children l = Some [] ->
  page_try net subreddit sortBy sendSSE skipCount totalNeeded allPosts after c
  = mkRun (Ret (PageBreak allPosts)) (now (page_fetch after c))
          (out (page_fetch after c)).
Proof.
  intros H Hempty. unfold page_try. rewrite (bind_Ret _ _ _ H).
  destruct Hempty as [-> | ->]; cbn; now rewrite app_nil_r.
Qed.

Lemma page_try_children (allPosts : list RedditPost) (after : option string)
    (c : nat) (l : Listing) (p : PostData) (cs : list PostData) :
  res (page_fetch after c) = Ret (ListingDoc l) ->
  listing_children l = Some (p :: cs) ->
  length allPosts < totalNeeded ->
  let allPosts' := allPosts ++ page_posts totalNeeded (p :: cs) allPosts in
  let sent :=
    map Write (page_events skipCount (length allPosts)
                 (length (page_posts totalNeeded (p :: cs) allPosts))) in
  page_try net subreddit sortBy sendSSE skipCount totalNeeded allPosts after c
  = if truthy_str (listing_after l)
    then mkRun (Ret (PageNext allPosts' (listing_after l)))
               (now (page_fetch after c))
               (out (page_fetch after c)
                  ++ sent ++ [Sleep DELAY_BETWEEN_REQUESTS])
    else mkRun (Ret (PageBreak allPosts')) (now (page_fetch after c))
               (out (page_fetch after c) ++ sent).
Proof.
  intros H Hcs Hroom. cbn zeta. unfold page_try.
  rewrite (bind_Ret _ _ _ H), Hcs. cbv beta iota.
  pose proof (scan_children_run skipCount (p :: cs) allPosts
                (now (page_fetch after c)) Hroom) as Hscan.
  rewrite (bind_Ret _ _ _ (f_equal (@res _) Hscan)), Hscan.
  cbn [res now out].
  destruct (truthy_str (listing_after l)); cbn; now rewrite ?app_nil_r.
Qed.

End PageLoop.

Lemma events_writes (es : list SSE) : events (map Write es) = es.
Proof.
  induction es as [| e es IH]; cbn; [reflexivity | now rewrite IH].
Qed.

Lemma page_events_app (skipCount from k1 k2 : nat) :
  page_events skipCount from k1 ++ page_events skipCount (from + k1) k2
  = page_events skipCount from (k1 + k2).
Proof.
  unfold page_events. now rewrite seq_app, map_app.
Qed.

Lemma qualifying_cons (cs : list PostData) (pages : list (list PostData)) :
  qualifying (cs :: pages) = qualifying [cs] ++ qualifying pages.
Proof.
  unfold qualifying. cbn. now rewrite app_nil_r, filter_app.
Qed.

Lemma page_posts_length (totalNeeded : nat) (cs : list PostData)
    (allPosts : list RedditPost) :
  length allPosts + length (page_posts totalNeeded cs allPosts)
  <= Nat.max totalNeeded (length allPosts).
Proof. unfold page_posts. rewrite length_firstn. lia. Qed.

(** What the page loop sends and returns: one progress event per post it
    pushes, and the first [totalNeeded] of the posts it held together with
    the qualifying items of the pages the listing hands out. *)
Lemma page_loop_spec (net : nat -> string -> outcome)
    (subreddit sortBy : string) (skipCount totalNeeded : nat) (fuel : nat) :
  forall (attempts : nat) (allPosts : list RedditPost)
         (after : option string) (c : nat),
    attempts + fuel <= maxAttempts ->
    length allPosts <= totalNeeded ->
    let r := page_loop net subreddit sortBy sendSSE skipCount totalNeeded
               fuel attempts allPosts after c in
    exists k,
      events (out r) = page_events skipCount (length allPosts) k
      /\ length allPosts + k <= totalNeeded
      /\ forall allPosts',
           res r = Ret allPosts' ->
           length allPosts' = length allPosts + k
           /\ allPosts'
              = firstn totalNeeded
                  (allPosts
                     ++ map extractPost
                          (qualifying (listing_pages net subreddit sortBy
                                         fuel after c))).
Proof.
  induction fuel as [| fuel IH]; intros attempts allPosts after c Hfuel Hlen;
    cbn zeta.
  - exists 0. cbn. repeat split; try lia.
    + injection H as <-. lia.
    + injection H as <-. now rewrite app_nil_r, firstn_all2.
  - cbn [page_loop listing_pages].
    destruct (Nat.ltb_spec (length allPosts) totalNeeded) as [Hroom | Hfull].
    2:{ exists 0. cbn. repeat split; try lia.
        - injection H as <-. lia.
        - injection H as <-.
          rewrite firstn_app, firstn_all2 by lia.
          replace (totalNeeded - length allPosts) with 0 by lia.
          cbn. now rewrite app_nil_r. }
    replace (attempts <? maxAttempts) with true
      by (symmetry; apply Nat.ltb_lt; lia).
    cbn [andb]. rewrite bind_try_rethrow.
    set (fp := fetchRedditJSON net (listing_url subreddit sortBy after) 2 c).
    destruct (res fp) as [d | e] eqn:Hfetch.
    2:{ pose proof (@page_try_throw net subreddit sortBy skipCount totalNeeded
                      allPosts after c e Hfetch) as Hp.
        rewrite (bind_Throw _ _ _ (f_equal (@res _) Hp)), Hp.
        cbn [res now out]. exists 0.
        split; [apply fetchRedditJSON_events |].
        split; [lia | intros all' H; discriminate H]. }
    destruct d as [l | segs | msg].
    2,3: edestruct (@page_try_not_listing net subreddit sortBy skipCount
                      totalNeeded allPosts after c _ Hfetch) as [e Hp];
      [intros l; discriminate
      | rewrite (bind_Throw _ _ _ (f_equal (@res _) Hp)), Hp;
        cbn [res now out]; exists 0;
        (split; [apply fetchRedditJSON_events |]);
        (split; [lia | intros all' H; discriminate H])].
    destruct (listing_children l) as [[| p cs] |] eqn:Hcs.
    1,3: assert (Hp := @page_try_empty net subreddit sortBy skipCount
                         totalNeeded allPosts after c l Hfetch);
      rewrite Hcs in Hp; specialize (Hp ltac:(auto));
      rewrite (bind_Ret _ _ _ (f_equal (@res _) Hp)), Hp;
      cbn [res now out]; rewrite app_nil_r; exists 0;
      (split; [apply fetchRedditJSON_events |]); (split; [lia |]);
      intros all' [= <-]; (split; [lia |]);
      cbn; now rewrite app_nil_r, firstn_all2 by lia.
    pose proof (@page_try_children net subreddit sortBy skipCount totalNeeded
                  allPosts after c l p cs Hfetch Hcs Hroom) as Hp.
    cbn zeta in Hp.
    pose proof (page_posts_length totalNeeded (p :: cs) allPosts) as Hk1.
    set (fresh := page_posts totalNeeded (p :: cs) allPosts) in *.
    destruct (truthy_str (listing_after l));
      rewrite (bind_Ret _ _ _ (f_equal (@res _) Hp)), Hp; cbn [res now out].
    + destruct (IH (S attempts) (allPosts ++ fresh) (listing_after l) (now fp))
        as (k2 & Hev & Hk2 & Hres);
        [lia | rewrite length_app; lia |].
      rewrite length_app in Hev, Hk2, Hres.
      exists (length fresh + k2). split; [| split; [lia |]].
      * subst fp. rewrite !events_app, events_writes, Hev.
        rewrite (fetchRedditJSON_events net _ 2 c).
        cbn [app events]. rewrite app_nil_r. apply page_events_app.
      * intros all' Hall. destruct (Hres all' Hall) as [Hl ->].
        split; [lia |].
        rewrite qualifying_cons, map_app. unfold fresh, page_posts.
        apply firstn_app_firstn. lia.
    + exists (length fresh). split; [| split; [lia |]].
      * rewrite app_nil_r, events_app, events_writes.
        now rewrite (fetchRedditJSON_events net _ 2 c).
      * intros all' [= <-]. rewrite length_app. split; [reflexivity |].
        unfold fresh, page_posts.
        apply firstn_app_all. lia.
Qed.

(** *** Claims about [fetchPosts] *)

Lemma slice_firstn_map {A B : Type} (f : A -> B) (skip target : nat)
    (l : list A) :
  slice skip (skip + target) (firstn (skip + target) (map f l))
  = map f (slice skip (skip + target) l).
Proof.
  unfold slice. replace (skip + target - skip) with target by lia.
  rewrite <- firstn_skipn_comm, firstn_firstn, Nat.min_id.
  now rewrite skipn_map, firstn_map.
Qed.

Lemma slice_length {A : Type} (skip target : nat) (l : list A) :
  length (slice skip (skip + target) l) = Nat.min target (length l - skip).
Proof.
  unfold slice. replace (skip + target - skip) with target by lia.
  now rewrite length_firstn, length_skipn.
Qed.

(** The events [fetchPosts] sends and the posts it returns. *)
Lemma fetchPosts_spec (net : nat -> string -> outcome)
    (subreddit sortBy : string) (targetCount skipCount c : nat) :
  let r := fetchPosts net subreddit sortBy targetCount skipCount sendSSE c in
  let listed :=
    qualifying (listing_pages net subreddit sortBy maxAttempts None c) in
  exists k,
    events (out r) = page_events skipCount 0 k
    /\ k <= skipCount + targetCount
    /\ forall posts,
         res r = Ret posts ->
         length posts = k - skipCount
         /\ posts = map extractPost (slice skipCount (skipCount + targetCount)
                                       listed).
Proof.
  cbn zeta. unfold fetchPosts.
  destruct (@page_loop_spec net subreddit sortBy skipCount
              (skipCount + targetCount) maxAttempts 0 [] None c)
    as (k & Hev & Hk & Hres); [lia | cbn; lia |].
  cbn [length app] in Hev, Hk, Hres.
  set (loop := page_loop net subreddit sortBy sendSSE skipCount
                 (skipCount + targetCount) maxAttempts 0 [] None) in *.
  exists k. destruct (res (loop c)) as [all' | e] eqn:Hloop.
  - rewrite (bind_Ret _ _ _ Hloop). cbn [res now out]. rewrite app_nil_r.
    split; [exact Hev |]. split; [exact Hk |].
    intros posts [= <-]. destruct (Hres all' eq_refl) as [Hlen ->].
    rewrite slice_firstn_map. split; [| reflexivity].
    rewrite <- slice_firstn_map, slice_length, Hlen. lia.
  - rewrite (bind_Throw _ _ _ Hloop). cbn [res now out].
    split; [exact Hev |]. split; [exact Hk |]. intros posts H. discriminate H.
Qed.






(** *** The per-post loop of the handler *)

Lemma fetchComments_network (net : nat -> string -> outcome)
    (permalink : string) (limit : nat) :
  emits network_action (fetchComments net permalink limit).
Proof.
  unfold fetchComments. apply emits_bind; [apply fetchRedditJSON_network |].
  intros [l | segments | msg]; auto with emits.
  destruct (length segments <? 2); auto with emits.
  destruct (nth_error segments 1) as [[children | msg] |]; auto with emits.
Qed.

(** One pass through the [try]/[catch] around a post: a successful comment
    fetch adds its comments and an export item and is followed by the
    delay; a failed one is logged and changes nothing. *)
Lemma post_attempt_run (net : nat -> string -> outcome)
    (config : ScrapeConfig) (post : RedditPost) (totalComments : nat)
    (results : list ExportItem) (c : nat) :
  let fc := fetchComments net (post_permalink post) (commentsPerPost config) c in
  try_catch (post_try net config post totalComments results)
            (post_catch post totalComments results) c
  = match res fc with
    | Ret comments =>
        mkRun (Ret (totalComments + length comments,
                    results ++ [export_item (exportMode config) post comments]))
              (now fc) (out fc ++ [Sleep DELAY_BETWEEN_REQUESTS])
    | Throw e =>
        mkRun (Ret (totalComments, results)) (now fc)
              (out fc
                 ++ [ConsoleError ("Error fetching comments for post "
                                     +++ post_id post +++ ":") e])
    end.
Proof.
  cbn zeta. unfold try_catch, post_try.
  destruct (res (fetchComments net (post_permalink post)
                   (commentsPerPost config) c)) as [comments | e] eqn:Hfc.
  - rewrite (bind_Ret _ _ _ Hfc). reflexivity.
  - rewrite (bind_Throw _ _ _ Hfc). reflexivity.
Qed.

Lemma post_loop_cons (net : nat -> string -> outcome) (config : ScrapeConfig)
    (n : nat) (post : RedditPost) (rest : list RedditPost)
    (i totalComments : nat) (results : list ExportItem) (c : nat) :
  post_loop net config n (post :: rest) i totalComments results c
  = let step := try_catch (post_try net config post totalComments results)
                          (post_catch post totalComments results) c in
    match res step with
    | Ret st =>
        let r := post_loop net config n rest (S i) (fst st) (snd st)
                   (now step) in
        mkRun (res r) (now r)
              (Write (processing n i totalComments) :: out step ++ out r)
    | Throw e =>
        mkRun (Throw e) (now step)
              (Write (processing n i totalComments) :: out step)
    end.
Proof.
  cbn [post_loop]. unfold bind, sendSSE, emit. cbn [res now out app].
  set (step := try_catch _ _ c). now destruct (res step).
Qed.

Lemma post_loop_spec (net : nat -> string -> outcome) (config : ScrapeConfig)
    (n : nat) (rest : list RedditPost) :
  forall (i totalComments : nat) (results : list ExportItem) (c : nat),
    let r := post_loop net config n rest i totalComments results c in
    let ok := succeeded (comment_attempts net (commentsPerPost config) rest c) in
    res r = Ret (totalComments + collected ok,
                 results ++ exported (exportMode config) ok)
    /\ Forall (loop_event n) (events (out r))
    /\ length (events (out r)) = length rest.
Proof.
  induction rest as [| post rest IH]; intros i totalComments results c;
    cbn zeta.
  - cbn. rewrite Nat.add_0_r, app_nil_r. auto.
  - rewrite post_loop_cons. cbn zeta. cbn [comment_attempts].
    rewrite post_attempt_run. cbn zeta.
    pose proof (fetchComments_network net (post_permalink post)
                  (commentsPerPost config) c) as Hnet.
    apply network_events in Hnet.
    set (fc := fetchComments net (post_permalink post)
                 (commentsPerPost config) c) in *.
    assert (Hfirst : loop_event n (processing n i totalComments))
      by (now eexists _, _, _).
    destruct (res fc) as [comments | e];
      cbn [res now out fst snd succeeded].
    + destruct (IH (S i) (totalComments + length comments)
                  (results ++ [export_item (exportMode config) post comments])
                  (now fc)) as (Hres & Hev & Hlen).
      rewrite Hres. split; [| split].
      * unfold collected, exported. cbn [map list_sum fold_right fst snd].
        rewrite <- app_assoc, Nat.add_assoc. reflexivity.
      * cbn [events]. constructor; [exact Hfirst |].
        rewrite !events_app, Hnet. exact Hev.
      * cbn [events length]. rewrite !events_app, Hnet. cbn [app events].
        now rewrite Hlen.
    + destruct (IH (S i) totalComments results (now fc))
        as (Hres & Hev & Hlen).
      rewrite Hres. split; [| split].
      * reflexivity.
      * cbn [events]. constructor; [exact Hfirst |].
        rewrite !events_app, Hnet. exact Hev.
      * cbn [events length]. rewrite !events_app, Hnet. cbn [app events].
        now rewrite Hlen.
Qed.

(** *** The handler *)

Lemma bind_emit {B : Type} (a : io) (f : unit -> M B) (c : nat) :
  bind (emit a) f c = mkRun (res (f tt c)) (now (f tt c)) (a :: out (f tt c)).
Proof. reflexivity. Qed.

Lemma bind_sendSSE {B : Type} (e : SSE) (f : unit -> M B) (c : nat) :
  bind (sendSSE e) f c
  = mkRun (res (f tt c)) (now (f tt c)) (Write e :: out (f tt c)).
Proof. reflexivity. Qed.

(** The whole trace of a run of the handler. *)
Lemma api_scrape_spec (net : nat -> string -> outcome) (config : ScrapeConfig)
    (c : nat) :
  let fp := fetchPosts net (subreddit config) (sort_name (sortBy config))
              (postCount config) (skipPosts config) sendSSE c in
  res (api_scrape net config c) = Ret tt
  /\ out (api_scrape net config c)
     = Write (opening config) :: out fp
         ++ match res fp with
            | Throw e => [Write (error (thrown_message e)); EndResponse]
            | Ret posts =>
                if length posts =? 0
                then [Write (error "No text posts found in this subreddit.");
                      EndResponse]
                else
                  let ok :=
                    succeeded (comment_attempts net (commentsPerPost config)
                                 posts (now fp)) in
                  out (post_loop net config (length posts) posts 0 0 []
                         (now fp))
                    ++ [Write (finalizing (length posts) (collected ok));
                        Write (complete
                                 (summary config (length posts) (collected ok))
                                 (exported (exportMode config) ok));
                        EndResponse]
            end.
Proof.
  cbn zeta. unfold api_scrape.
  set (fp := fetchPosts net (subreddit config) (sort_name (sortBy config))
               (postCount config) (skipPosts config) sendSSE).
  fold (opening config).
  match goal with
  | |- context [try_catch ?m ?h] => set (body := m); set (handler := h)
  end.
  destruct (res (fp c)) as [posts | e] eqn:Hfp.
  - assert (Hbody :
      res (body c) = Ret tt
      /\ out (body c)
         = Write (opening config) :: out (fp c)
             ++ if length posts =? 0
                then [Write (error "No text posts found in this subreddit.");
                      EndResponse]
                else
                  let ok :=
                    succeeded (comment_attempts net (commentsPerPost config)
                                 posts (now (fp c))) in
                  out (post_loop net config (length posts) posts 0 0 []
                         (now (fp c)))
                    ++ [Write (finalizing (length posts) (collected ok));
                        Write (complete
                                 (summary config (length posts) (collected ok))
                                 (exported (exportMode config) ok));
                        EndResponse]).
    { unfold body. rewrite bind_sendSSE, (bind_Ret _ _ _ Hfp).
      cbn [res now out]. destruct (length posts =? 0).
      - split; reflexivity.
      - destruct (post_loop_spec net config (length posts) posts 0 0 []
                    (now (fp c))) as (Hloop & _ & _).
        cbn [Nat.add app] in Hloop.
        rewrite (bind_Ret _ _ _ Hloop). cbn [res now out fst snd].
        split; reflexivity. }
    destruct Hbody as [Hres Hout].
    rewrite (try_catch_Ret _ _ _ Hres). split; [exact Hres | exact Hout].
  - assert (Hbody :
      body c = mkRun (Throw e) (now (fp c)) (Write (opening config) :: out (fp c))).
    { unfold body. rewrite bind_sendSSE, (bind_Throw _ _ _ Hfp).
      reflexivity. }
    rewrite (try_catch_Throw _ _ _ (f_equal (@res _) Hbody)), Hbody.
    split; reflexivity.
Qed.

Lemma page_events_progress (skipCount from k : nat) :
  forallb is_progress (page_events skipCount from k) = true.
Proof.
  unfold page_events. apply forallb_forall. intros e Hin.
  apply in_map_iff in Hin as (j & <- & _). unfold post_progress.
  now destruct (j <=? skipCount).
Qed.


Lemma loop_events_progress (n : nat) (es : list SSE) :
  Forall (loop_event n) es -> forallb is_progress es = true.
Proof.
  induction 1 as [| e es (i & t & m & ->) _ IH]; cbn; [reflexivity | exact IH].
Qed.



Lemma comment_attempts_length (net : nat -> string -> outcome) (limit : nat)
    (posts : list RedditPost) :
  forall c, length (comment_attempts net limit posts c) = length posts.
Proof.
  induction posts as [| post rest IH]; intros c; cbn; [| rewrite IH];
    reflexivity.
Qed.








(** C7.  When [fetchPosts] returns at least one post, the run ends with the
    final progress event and a [complete] event: the data hold the export
    records of exactly the posts whose comment fetch succeeded, in order,
    and [commentsCollected] is the sum of the comment counts of those
    posts; a post whose comment fetch failed contributes to neither. *)
Theorem failed_comment_fetch_is_skipped (net : nat -> string -> outcome)
    (config : ScrapeConfig) (c : nat) (posts : list RedditPost) :
  let fp := fetchPosts net (subreddit config) (sort_name (sortBy config))
              (postCount config) (skipPosts config) sendSSE c in
  res fp = Ret posts ->
  posts <> [] ->
  let ok := succeeded (comment_attempts net (commentsPerPost config) posts
                         (now fp)) in
  exists actions message,
    out (api_scrape net config c)
    = actions
        ++ [Write (progress (length posts) (Some (length posts))
                     (Some (collected ok)) "Finalizing...");
            Write (complete message (exported (exportMode config) ok));
            EndResponse].
Proof.
  intros fp Hfp Hposts ok.
  destruct (api_scrape_spec net config c) as [_ Hout]. cbn zeta in Hout.
  fold fp in Hout. rewrite Hfp in Hout.
  destruct posts as [| post rest]; [now contradiction Hposts |].
  cbn [length Nat.eqb] in Hout. fold ok in Hout.
  eexists (Write (opening config) :: out fp ++ out _), _.
  rewrite Hout. cbn [app]. rewrite <- app_assoc. reflexivity.
Qed.

Lemma failed_comment_fetch_is_skipped_witness :
  let config := sample_config flat_labels in
  let posts := [extractPost (text_post "a"); extractPost (text_post "c")] in
  let fp := fetchPosts blocked_once (subreddit config)
              (sort_name (sortBy config)) (postCount config)
              (skipPosts config) sendSSE 0 in
  let ok := succeeded (comment_attempts blocked_once (commentsPerPost config)
                         posts (now fp)) in
  res fp = Ret posts
  /\ posts <> []
  /\ ok = [(extractPost (text_post "c"), sample_comments)]
  /\ exists actions message,
       out (api_scrape blocked_once config 0)
       = actions
           ++ [Write (progress (length posts) (Some (length posts))
                        (Some (collected ok)) "Finalizing...");
               Write (complete message (exported (exportMode config) ok));
               EndResponse].
Proof.
  cbn zeta.
  assert (H : res (fetchPosts blocked_once "rocq" "new" 5 0 sendSSE 0)
              = Ret [extractPost (text_post "a"); extractPost (text_post "c")])
    by (vm_compute; reflexivity).
  split; [exact H |]. split; [discriminate |].
  split; [vm_compute; reflexivity |].
  apply (@failed_comment_fetch_is_skipped blocked_once
           (sample_config flat_labels) 0 _ H).
  discriminate.
Defined.

(** C5 fails on the code: in the run below the comment fetch of post [a] is
    refused by both hosts; the handler logs the failure and goes straight
    on to the next post and its request, without the delay.  The comment
    fetch of post [c] succeeds and is followed by the delay. *)
Theorem no_delay_after_failed_comment_fetch :
  exists before message,
    out (api_scrape blocked_once (sample_config clean) 0)
    = before
        ++ [Write (processing 2 0 0);
            Fetch (comments_url "/r/rocq/comments/a") (http 403);
            Fetch (fallback_url (comments_url "/r/rocq/comments/a")) (http 403);
            ConsoleError "Error fetching comments for post a:"
              (Err Error blocked_message);
            Write (processing 2 1 0);
            Fetch (comments_url "/r/rocq/comments/c") (http 429);
            Sleep 5000;
            Fetch (comments_url "/r/rocq/comments/c") (ok thread);
            Sleep DELAY_BETWEEN_REQUESTS;
            Write (finalizing 2 2);
            Write (complete message
                     [CleanExportItem (extractPost (text_post "c"))
                        sample_comments]);
            EndResponse].
Proof.
  eexists (firstn 4 (out (api_scrape blocked_once (sample_config clean) 0))),
    _.
  vm_compute. reflexivity.
Qed.

(** *** The fetcher *)

Lemma includes_rate_limited : includes "Reddit" rate_limited_message = true.
Proof. reflexivity. Qed.

Lemma includes_api_error (st : nat) :
  includes "Reddit" (api_error_message st) = true.
Proof. reflexivity. Qed.

(** One attempt: a request, possibly followed by a sleep; it never throws,
    and an answer 403 breaks out of the loop with the blocked error. *)
Lemma attempt_run (net : nat -> string -> outcome) (tryUrl : string)
    (retries attempt : nat) (lastError : option thrown) (c : nat) :
  exists s sleeps,
    try_catch (attempt_try net tryUrl retries attempt lastError)
              (attempt_catch retries attempt) c
    = mkRun (Ret s) (S c) (Fetch tryUrl (net c tryUrl) :: sleeps)
    /\ requests sleeps = []
    /\ (is_403 (net c tryUrl) = true ->
        s = Break (Some (Err Error blocked_message))).
Proof.
  unfold try_catch, attempt_try.
  set (backoff := 5000 * (attempt + 1)).
  destruct (net c tryUrl) as [r | e] eqn:Hnet; cbn [is_403].
  - assert (Hfetch : fetch net tryUrl c
                     = mkRun (Ret r) (S c) [Fetch tryUrl (Responded r)])
      by (unfold fetch; now rewrite Hnet).
    rewrite (bind_Ret _ _ _ (f_equal (@res _) Hfetch)), Hfetch.
    cbn [res now out app]. unfold is_ok.
    destruct (Nat.leb_spec 200 (status r)) as [Hlo | Hlo];
      destruct (Nat.leb_spec (status r) 299) as [Hhi | Hhi]; cbn [andb].
    1:{ eexists _, _. split; [reflexivity |]. split; [reflexivity |].
        intros H. apply Nat.eqb_eq in H. lia. }
    all: destruct (Nat.eqb_spec (status r) 429) as [H429 | H429].
    all: try (destruct (attempt <? retries); unfold delay;
              [ rewrite bind_emit; cbn [res now out ret]
              | cbn [res now out throw attempt_catch];
                rewrite includes_rate_limited; cbn [res now out ret app] ];
              eexists _, _; (split; [reflexivity |]);
              (split; [reflexivity |]);
              intros H; apply Nat.eqb_eq in H; lia).
    all: destruct (Nat.eqb_spec (status r) 403) as [H403 | H403];
      [ cbn [res now out ret]; eexists _, _; (split; [reflexivity |]);
        (split; [reflexivity |]); reflexivity
      | cbn [res now out throw attempt_catch];
        rewrite includes_api_error; cbn [res now out ret app];
        eexists _, _; (split; [reflexivity |]);
        (split; [reflexivity |]); discriminate ].
  - assert (Hfetch : fetch net tryUrl c
                     = mkRun (Throw e) (S c) [Fetch tryUrl (Rejected e)])
      by (unfold fetch; now rewrite Hnet).
    rewrite (bind_Throw _ _ _ (f_equal (@res _) Hfetch)), Hfetch.
    cbn [res now out]. unfold delay.
    destruct e as [cl msg |]; cbn [attempt_catch].
    + destruct (includes "Reddit" msg); [| destruct (attempt <? retries)];
        rewrite ?bind_emit; cbn [res now out ret app]; eexists _, _;
        (split; [reflexivity |]); (split; [reflexivity |]); discriminate.
    + destruct (attempt <? retries);
        rewrite ?bind_emit; cbn [res now out ret app]; eexists _, _;
        (split; [reflexivity |]); (split; [reflexivity |]); discriminate.
Qed.

Lemma requests_sleeps (u : string) (o : outcome) (sleeps rest : list io) :
  requests sleeps = [] ->
  requests ((Fetch u o :: sleeps) ++ rest) = (u, o) :: requests rest.
Proof.
  intros H. cbn [app requests]. now rewrite requests_app, H.
Qed.

(** The attempt loop for one host: it never throws, asks only that host,
    asks it at least once, and an answer 403 is the last request it makes,
    leaving the blocked error as [lastError]. *)
Lemma attempt_loop_spec (net : nat -> string -> outcome) (tryUrl : string)
    (retries fuel : nat) :
  forall (attempt : nat) (lastError : option thrown) (c : nat),
    let R := attempt_loop net tryUrl retries fuel attempt lastError c in
    let rs := requests (out R) in
    (exists h, res R = Ret h)
    /\ Forall (fun rq => fst rq = tryUrl) rs
    /\ (forall i rq,
           nth_error rs i = Some rq -> is_403 (snd rq) = true ->
           length rs = S i
           /\ res R = Ret (Exhausted (Some (Err Error blocked_message))))
    /\ (0 < fuel -> attempt <= retries -> rs <> []).
Proof.
  induction fuel as [| fuel IH]; intros attempt lastError c; cbn zeta.
  - cbn. split; [eauto |]. split; [constructor |]. split.
    + intros [| i] rq H; discriminate H.
    + lia.
  - cbn [attempt_loop]. destruct (Nat.leb_spec attempt retries) as [Hle | Hgt].
    2:{ cbn. split; [eauto |]. split; [constructor |]. split.
        - intros [| i] rq H; discriminate H.
        - lia. }
    destruct (attempt_run net tryUrl retries attempt lastError c)
      as (s & sleeps & Hrun & Hsleeps & H403).
    rewrite (bind_Ret _ _ _ (f_equal (@res _) Hrun)), Hrun.
    cbn [res now out].
    destruct s as [r | e | e].
    1,2: cbn [res now out ret]; rewrite (@requests_sleeps _ _ _ _ Hsleeps);
      cbn [requests]; (split; [eauto |]);
      (split; [now repeat constructor |]);
      (split; [| discriminate]);
      intros [| i] rq Hnth Hrq;
      [ injection Hnth as <-; cbn [snd] in Hrq; specialize (H403 Hrq);
        (discriminate H403 || (injection H403 as ->; now split))
      | destruct i; discriminate Hnth ].
    specialize (IH (S attempt) e (S c)). cbn zeta in IH.
    destruct IH as ((h & Hres) & Hall & Hlast & _).
    rewrite (@requests_sleeps _ _ _ _ Hsleeps).
    split; [eauto |]. split; [now constructor |]. split; [| discriminate].
    intros [| i] rq Hnth Hrq.
    + injection Hnth as <-. cbn [snd] in Hrq. specialize (H403 Hrq).
      discriminate H403.
    + cbn [nth_error] in Hnth. destruct (Hlast i rq Hnth Hrq) as [Hlen Hend].
      cbn [length]. now rewrite Hlen.
Qed.

(** The two passes of [fetchRedditJSON]: the primary host, and the fallback
    host when the primary one is exhausted. *)
Lemma fetchRedditJSON_passes (net : nat -> string -> outcome) (url : string)
    (retries c : nat) :
  let R1 := attempt_loop net url retries (S retries) 0 None c in
  let r := fetchRedditJSON net url retries c in
  match res R1 with
  | Ret (Returned resp) =>
      requests (out r) = requests (out R1) /\ res r = parsed resp
  | Ret (Exhausted e1) =>
      let R2 := attempt_loop net (fallback_url url) retries (S retries) 0 e1
                  (now R1) in
      requests (out r) = requests (out R1) ++ requests (out R2)
      /\ match res R2 with
         | Ret (Returned resp) => res r = parsed resp
         | Ret (Exhausted e2) => res r = Throw (final_error e2)
         | Throw e => res r = Throw e
         end
  | Throw e => res r = Throw e
  end.
Proof.
  cbn zeta. unfold fetchRedditJSON. cbn [try_urls].
  set (R1 := attempt_loop net url retries (S retries) 0 None).
  destruct (res (R1 c)) as [[resp | e1] | e] eqn:H1.
  - rewrite (bind_Ret _ _ _ H1). cbn [res now out]. unfold parsed.
    destruct (json_body resp); cbn [res now out ret throw];
      now rewrite app_nil_r.
  - rewrite (bind_Ret _ _ _ H1). cbn [res now out].
    set (R2 := attempt_loop net (fallback_url url) retries (S retries) 0 e1).
    rewrite requests_app.
    destruct (res (R2 (now (R1 c)))) as [[resp | e2] | e] eqn:H2.
    + rewrite (bind_Ret _ _ _ H2). cbn [res now out]. unfold parsed.
      destruct (json_body resp); cbn [res now out ret throw];
        now rewrite app_nil_r.
    + rewrite (bind_Ret _ _ _ H2). cbn [res now out throw].
      now rewrite app_nil_r.
    + rewrite (bind_Throw _ _ _ H2). now cbn [res now out].
  - now rewrite (bind_Throw _ _ _ H1).
Qed.

Lemma nonempty_all_to (u : string) (rs : list (string * outcome)) :
  rs <> [] -> Forall (fun rq => fst rq = u) rs ->
  exists o, nth_error rs 0 = Some (u, o).
Proof.
  intros Hne Hall. destruct rs as [| [u' o] rest]; [now contradiction Hne |].
  apply Forall_inv in Hall. cbn in Hall. subst u'. now exists o.
Qed.

Lemma nth_error_all_to (u : string) (rs : list (string * outcome)) (i : nat)
    (rq : string * outcome) :
  Forall (fun rq => fst rq = u) rs -> nth_error rs i = Some rq -> fst rq = u.
Proof.
  intros Hall Hnth. apply nth_error_In in Hnth.
  now apply (proj1 (Forall_forall _ _) Hall).
Qed.

(** C9.  Let the fallback url differ from the url asked for.  When a host
    answers 403, [fetchRedditJSON] makes no further request to that host;
    after a 403 of the primary host the next request goes to the fallback
    host; a 403 of the fallback host is the last request and the call fails
    with the blocked error.  And whenever the call fails with an [Error] of
    its own, the blocked error among them, both hosts have been asked. *)
Theorem forbidden_host_is_left (net : nat -> string -> outcome) (url : string)
    (retries c : nat) :
  fallback_url url <> url ->
  let r := fetchRedditJSON net url retries c in
  let rs := requests (out r) in
  (forall i u o,
      nth_error rs i = Some (u, o) -> is_403 o = true ->
      (forall j rq, i < j -> nth_error rs j = Some rq -> fst rq <> u)
      /\ (u = url ->
          exists o', nth_error rs (S i) = Some (fallback_url url, o'))
      /\ (u = fallback_url url ->
          length rs = S i /\ res r = Throw (Err Error blocked_message)))
  /\ (forall message,
         res r = Throw (Err Error message) ->
         (exists o, In (url, o) rs)
         /\ (exists o, In (fallback_url url, o) rs)).
Proof.
  intros Hdiff. cbn zeta.
  pose proof (fetchRedditJSON_passes net url retries c) as Hpass.
  cbn zeta in Hpass.
  destruct (attempt_loop_spec net url retries (S retries) 0 None c)
    as ((h1 & Hres1) & Hall1 & Hlast1 & Hne1).
  specialize (Hne1 ltac:(lia) ltac:(lia)).
  set (R1 := attempt_loop net url retries (S retries) 0 None c) in *.
  rewrite Hres1 in Hpass.
  destruct h1 as [resp | e1].
  - (* the primary host answered *)
    destruct Hpass as [-> Hres]. split.
    + intros i u o Hnth H403.
      destruct (Hlast1 i (u, o) Hnth H403) as [_ Hend].
      rewrite Hres1 in Hend. discriminate Hend.
    + intros message Hthrow. rewrite Hres in Hthrow. unfold parsed in Hthrow.
      destruct (json_body resp); discriminate Hthrow.
  - (* the primary host is exhausted *)
    cbn zeta in Hpass. destruct Hpass as [-> Hres].
    destruct (attempt_loop_spec net (fallback_url url) retries (S retries) 0 e1
                (now R1)) as ((h2 & Hres2) & Hall2 & Hlast2 & Hne2).
    specialize (Hne2 ltac:(lia) ltac:(lia)).
    set (R2 := attempt_loop net (fallback_url url) retries (S retries) 0 e1
                 (now R1)) in *.
    rewrite Hres2 in Hres.
    destruct (nonempty_all_to Hne1 Hall1) as [o1 Hfirst1].
    destruct (nonempty_all_to Hne2 Hall2) as [o2 Hfirst2].
    split.
    + intros i u o Hnth H403.
      destruct (Nat.lt_ge_cases i (length (requests (out R1)))) as [Hi | Hi].
      * (* the 403 came from the primary host *)
        rewrite nth_error_app1 in Hnth by assumption.
        pose proof (nth_error_all_to _ Hall1 Hnth) as Hu. cbn in Hu. subst u.
        destruct (Hlast1 i _ Hnth H403) as [Hlen _].
        split; [| split].
        -- intros j rq Hij Hj.
           rewrite nth_error_app2 in Hj by lia.
           rewrite (nth_error_all_to _ Hall2 Hj). exact Hdiff.
        -- intros _. exists o2.
           rewrite nth_error_app2 by lia.
           now replace (S i - length (requests (out R1))) with 0 by lia.
        -- intros Heq. now contradiction Hdiff.
      * (* the 403 came from the fallback host *)
        rewrite nth_error_app2 in Hnth by assumption.
        pose proof (nth_error_all_to _ Hall2 Hnth) as Hu. cbn in Hu. subst u.
        destruct (Hlast2 _ _ Hnth H403) as [Hlen Hend].
        split; [| split].
        -- intros j rq Hij Hj.
           assert (Hnone : nth_error (requests (out R1) ++ requests (out R2)) j
                           = None)
             by (apply nth_error_None; rewrite length_app; lia).
           rewrite Hnone in Hj. discriminate Hj.
        -- intros Heq. now contradiction Hdiff.
        -- intros _. split; [rewrite length_app; lia |].
           rewrite Hres2 in Hend. injection Hend as ->. exact Hres.
    + intros message _. split.
      * exists o1. apply in_or_app. left.
        now apply (nth_error_In _ 0).
      * exists o2. apply in_or_app. right.
        now apply (nth_error_In _ 0).
Qed.

Lemma forbidden_host_is_left_witness :
  let url := comments_url "/r/rocq/comments/a" in
  let r := fetchRedditJSON blocked_once url 2 1 in
  fallback_url url <> url
  /\ nth_error (requests (out r)) 0 = Some (url, http 403)
  /\ is_403 (http 403) = true
  /\ (forall j rq, 0 < j -> nth_error (requests (out r)) j = Some rq ->
                   fst rq <> url)
  /\ (exists o', nth_error (requests (out r)) 1 = Some (fallback_url url, o')).
Proof.
  cbn zeta.
  assert (Hdiff : fallback_url (comments_url "/r/rocq/comments/a")
                  <> comments_url "/r/rocq/comments/a")
    by (vm_compute; discriminate).
  assert (Hfirst :
            nth_error (requests (out (fetchRedditJSON blocked_once
                                        (comments_url "/r/rocq/comments/a") 2 1)))
                      0
            = Some (comments_url "/r/rocq/comments/a", http 403))
    by (vm_compute; reflexivity).
  split; [exact Hdiff |]. split; [exact Hfirst |]. split; [reflexivity |].
  destruct (proj1 (@forbidden_host_is_left blocked_once
                     (comments_url "/r/rocq/comments/a") 2 1 Hdiff)
              0 _ _ Hfirst eq_refl) as (Hlater & Hnext & _).
  split; [exact Hlater | exact (Hnext eq_refl)].
Defined.

(** The urls the program asks for do have a fallback on another host. *)
Lemma substring_all (s : string) : substring 0 (String.length s) s = s.
Proof. induction s as [| a s IH]; cbn; [| rewrite IH]; reflexivity. Qed.

Lemma fallback_url_reddit (path : string) :
  fallback_url ("https://www.reddit.com" +++ path)
  = "https://old.reddit.com" +++ path.
Proof.
  unfold fallback_url, replace.
  destruct path as [| a path]; cbn; [reflexivity | now rewrite substring_all].
Qed.

Lemma comments_url_fallback (permalink : string) :
  fallback_url (comments_url permalink) <> comments_url permalink.
Proof.
  unfold comments_url. rewrite fallback_url_reddit. cbn. discriminate.
Qed.

Lemma listing_url_fallback (subreddit sortBy : string) (after : option string) :
  fallback_url (listing_url subreddit sortBy after)
  <> listing_url subreddit sortBy after.
Proof.
  assert (H : exists path,
             listing_url subreddit sortBy after
             = "https://www.reddit.com" +++ path).
  { unfold listing_url.
    destruct (String.eqb sortBy "top"), (truthy_str after);
      eexists; cbn; reflexivity. }
  destruct H as [path ->]. rewrite fallback_url_reddit. cbn. discriminate.
Qed.

(* ===================================================================== *)
(** ** Further properties of the fetcher *)
(* ===================================================================== *)

Lemma fetch_Responded (net : nat -> string -> outcome) (url : string)
    (c : nat) (r : response) :
  net c url = Responded r ->
  fetch net url c = mkRun (Ret r) (S c) [Fetch url (net c url)].
Proof. intros H. unfold fetch. now rewrite H. Qed.

Lemma fetch_Rejected (net : nat -> string -> outcome) (url : string)
    (c : nat) (e : thrown) :
  net c url = Rejected e ->
  fetch net url c = mkRun (Throw e) (S c) [Fetch url (net c url)].
Proof. intros H. unfold fetch. now rewrite H. Qed.

Lemma status_429_not_ok (r : response) : status r = 429 -> is_ok r = false.
Proof.
  intros H. unfold is_ok. rewrite H.
  apply andb_false_iff. right. apply Nat.leb_gt. lia.
Qed.

(** A successful answer ends the attempt with a [return]. *)
Lemma attempt_ok (net : nat -> string -> outcome) (tryUrl : string)
    (retries attempt : nat) (lastError : option thrown) (c : nat)
    (r : response) :
  net c tryUrl = Responded r -> is_ok r = true ->
  try_catch (attempt_try net tryUrl retries attempt lastError)
            (attempt_catch retries attempt) c
  = mkRun (Ret (Return r)) (S c) [Fetch tryUrl (net c tryUrl)].
Proof.
  intros Hnet Hok. unfold try_catch, attempt_try.
  pose proof (fetch_Responded net tryUrl c Hnet) as Hfetch.
  rewrite (bind_Ret _ _ _ (f_equal (@res _) Hfetch)), Hfetch.
  cbn [res now out]. rewrite Hok. cbn [res now out ret app]. reflexivity.
Qed.

(** A transient answer before the last attempt: a pause, then [continue]. *)
Lemma attempt_transient (net : nat -> string -> outcome) (tryUrl : string)
    (retries attempt : nat) (lastError : option thrown) (c : nat) :
  transient (net c tryUrl) = true -> attempt < retries ->
  exists lastError',
    try_catch (attempt_try net tryUrl retries attempt lastError)
              (attempt_catch retries attempt) c
    = mkRun (Ret (Continue lastError')) (S c)
            [Fetch tryUrl (net c tryUrl);
             Sleep (pause attempt (net c tryUrl))]
    /\ (lastError' = lastError
        \/ lastError' = Some (exhaustion_error (net c tryUrl))).
Proof.
  intros Htransient Hlt. apply Nat.ltb_lt in Hlt.
  unfold try_catch, attempt_try, transient, pause in *.
  set (backoff := 5000 * (attempt + 1)) in *.
  destruct (net c tryUrl) as [r | e] eqn:Hnet.
  - cbn [rate_limited network_error orb exhaustion_error] in *.
    rewrite orb_false_r in Htransient. rewrite Htransient.
    pose proof (fetch_Responded net tryUrl c Hnet) as Hfetch.
    rewrite Hnet in Hfetch.
    rewrite (bind_Ret _ _ _ (f_equal (@res _) Hfetch)), Hfetch.
    cbn [res now out].
    rewrite (status_429_not_ok r) by now apply Nat.eqb_eq.
    rewrite Htransient, Hlt. unfold delay. rewrite bind_emit.
    cbn [res now out ret app]. eexists; split; [reflexivity | auto].
  - cbn [rate_limited network_error orb exhaustion_error] in *.
    pose proof (fetch_Rejected net tryUrl c Hnet) as Hfetch.
    rewrite Hnet in Hfetch.
    rewrite (bind_Throw _ _ _ (f_equal (@res _) Hfetch)), Hfetch.
    cbn [res now out].
    destruct e as [cl msg |]; cbn [attempt_catch]; unfold delay.
    + apply negb_true_iff in Htransient. rewrite Htransient, Hlt.
      rewrite bind_emit. cbn [res now out ret app]. eexists; split; [reflexivity | auto].
    + rewrite Hlt, bind_emit. cbn [res now out ret app]. eexists; split; [reflexivity | auto].
Qed.

(** A transient answer to the last attempt ends the loop for its host. *)
Lemma attempt_loop_last (net : nat -> string -> outcome) (tryUrl : string)
    (retries fuel : nat) (lastError : option thrown) (c : nat) :
  transient (net c tryUrl) = true ->
  attempt_loop net tryUrl retries (S fuel) retries lastError c
  = mkRun (Ret (Exhausted (Some (exhaustion_error (net c tryUrl))))) (S c)
          [Fetch tryUrl (net c tryUrl)].
Proof.
  intros Htransient. cbn [attempt_loop].
  rewrite Nat.leb_refl.
  assert (Hafter : forall e,
            attempt_loop net tryUrl retries fuel (S retries) e (S c)
            = mkRun (Ret (Exhausted e)) (S c) []).
  { intros e. destruct fuel as [| fuel]; cbn [attempt_loop]; [reflexivity |].
    replace (S retries <=? retries) with false
      by (symmetry; apply Nat.leb_gt; lia).
    reflexivity. }
  assert (Hstep :
    exists s,
      try_catch (attempt_try net tryUrl retries retries lastError)
                (attempt_catch retries retries) c
      = mkRun (Ret s) (S c) [Fetch tryUrl (net c tryUrl)]
      /\ (s = Break (Some (exhaustion_error (net c tryUrl)))
          \/ s = Continue (Some (exhaustion_error (net c tryUrl))))).
  { unfold try_catch, attempt_try, transient in *.
    set (backoff := 5000 * (retries + 1)).
    destruct (net c tryUrl) as [r | e] eqn:Hnet.
    - cbn [rate_limited network_error orb exhaustion_error] in *.
      rewrite orb_false_r in Htransient.
      pose proof (fetch_Responded net tryUrl c Hnet) as Hfetch.
      rewrite Hnet in Hfetch.
      rewrite (bind_Ret _ _ _ (f_equal (@res _) Hfetch)), Hfetch.
      cbn [res now out].
      rewrite (status_429_not_ok r) by now apply Nat.eqb_eq.
      rewrite Htransient, Nat.ltb_irrefl.
      cbn [res now out throw attempt_catch].
      rewrite includes_rate_limited. cbn [res now out ret app].
      eexists. split; [reflexivity | now left].
    - cbn [rate_limited network_error orb exhaustion_error] in *.
      pose proof (fetch_Rejected net tryUrl c Hnet) as Hfetch.
      rewrite Hnet in Hfetch.
      rewrite (bind_Throw _ _ _ (f_equal (@res _) Hfetch)), Hfetch.
      cbn [res now out].
      destruct e as [cl msg |]; cbn [attempt_catch].
      + apply negb_true_iff in Htransient.
        rewrite Htransient, Nat.ltb_irrefl. cbn [res now out ret app].
        eexists. split; [reflexivity | now right].
      + rewrite Nat.ltb_irrefl. cbn [res now out ret app].
        eexists. split; [reflexivity | now right]. }
  destruct Hstep as (s & Hrun & [-> | ->]);
    rewrite (bind_Ret _ _ _ (f_equal (@res _) Hrun)), Hrun;
    cbn [res now out ret]; rewrite ?Hafter; cbn [res now out app];
    reflexivity.
Qed.

(** A fatal answer breaks out of the loop at once. *)
Lemma attempt_fatal (net : nat -> string -> outcome) (tryUrl : string)
    (retries attempt : nat) (lastError : option thrown) (c : nat)
    (e : thrown) :
  fatal_error (net c tryUrl) = Some e ->
  try_catch (attempt_try net tryUrl retries attempt lastError)
            (attempt_catch retries attempt) c
  = mkRun (Ret (Break (Some e))) (S c) [Fetch tryUrl (net c tryUrl)].
Proof.
  intros Hfatal. unfold try_catch, attempt_try, fatal_error in *.
  set (backoff := 5000 * (attempt + 1)).
  destruct (net c tryUrl) as [r | e0] eqn:Hnet.
  - pose proof (fetch_Responded net tryUrl c Hnet) as Hfetch.
    rewrite Hnet in Hfetch.
    rewrite (bind_Ret _ _ _ (f_equal (@res _) Hfetch)), Hfetch.
    cbn [res now out].
    destruct (is_ok r); [discriminate |].
    destruct (status r =? 429); [discriminate |].
    destruct (status r =? 403); injection Hfatal as <-.
    + reflexivity.
    + cbn [res now out throw attempt_catch].
      rewrite includes_api_error. reflexivity.
  - pose proof (fetch_Rejected net tryUrl c Hnet) as Hfetch.
    rewrite Hnet in Hfetch.
    rewrite (bind_Throw _ _ _ (f_equal (@res _) Hfetch)), Hfetch.
    cbn [res now out].
    destruct e0 as [cl msg |]; [| discriminate]. cbn [attempt_catch].
    destruct (includes "Reddit" msg); [| discriminate].
    injection Hfatal as <-. reflexivity.
Qed.

(** Every answer is a success, fatal or transient. *)
Lemma answer_cases (o : outcome) :
  (exists r, o = Responded r /\ is_ok r = true)
  \/ (exists e, fatal_error o = Some e)
  \/ transient o = true.
Proof.
  unfold transient. destruct o as [r | [cl msg |]]; cbn.
  - destruct (is_ok r) eqn:Hok; [left; eauto |].
    destruct (status r =? 429); [now right; right |].
    right; left. destruct (status r =? 403); eauto.
  - destruct (includes "Reddit" msg); [right; left; eauto | now right; right].
  - now right; right.
Qed.

Lemma run_eta {A : Type} (r : run A) : mkRun (res r) (now r) (out r) = r.
Proof. now destruct r. Qed.

Lemma retried_S (net : nat -> string -> outcome) (url : string)
    (c attempt k : nat) :
  retried net url c attempt (S k)
  = Fetch url (net c url) :: Sleep (pause attempt (net c url))
      :: retried net url (S c) (S attempt) k.
Proof.
  unfold retried. cbn [seq flat_map app]. rewrite !Nat.add_0_r.
  do 2 f_equal. rewrite <- seq_shift, !flat_map_concat_map, map_map.
  f_equal. apply map_ext. intros i.
  now rewrite <- !plus_n_Sm.
Qed.

Lemma transient_run_spec (net : nat -> string -> outcome) (url : string)
    (c k : nat) :
  transient_run net url c k = true ->
  forall i, i < k -> transient (net (c + i) url) = true.
Proof.
  unfold transient_run. intros H i Hi.
  rewrite forallb_forall in H. apply H, in_seq. lia.
Qed.

(** [k] transient answers while attempts are left: [k] requests, each
    followed by its pause, and the loop goes on at attempt [attempt + k]. *)
Lemma attempt_loop_retried (net : nat -> string -> outcome) (tryUrl : string)
    (retries fuel : nat) :
  forall (k attempt : nat) (lastError : option thrown) (c : nat),
    attempt + k <= retries ->
    (forall i, i < k -> transient (net (c + i) tryUrl) = true) ->
    exists lastError',
      attempt_loop net tryUrl retries (k + fuel) attempt lastError c
      = mkRun
          (res (attempt_loop net tryUrl retries fuel (attempt + k) lastError'
                  (c + k)))
          (now (attempt_loop net tryUrl retries fuel (attempt + k) lastError'
                  (c + k)))
          (retried net tryUrl c attempt k
           ++ out (attempt_loop net tryUrl retries fuel (attempt + k)
                     lastError' (c + k))).
Proof.
  induction k as [| k IH]; intros attempt lastError c Hle Htransient.
  - exists lastError. rewrite !Nat.add_0_r. cbn [plus retried app].
    unfold retried. cbn [seq flat_map app]. now rewrite run_eta.
  - cbn [plus attempt_loop].
    replace (attempt <=? retries) with true
      by (symmetry; apply Nat.leb_le; lia).
    destruct (@attempt_transient net tryUrl retries attempt lastError c)
      as (e & Hrun & _); [| lia |].
    { rewrite <- (Nat.add_0_r c). apply Htransient. lia. }
    rewrite (bind_Ret _ _ _ (f_equal (@res _) Hrun)), Hrun.
    cbn [res now out].
    destruct (IH (S attempt) e (S c)) as (e' & Hrest); [lia | |].
    { intros i Hi. rewrite plus_Sn_m, plus_n_Sm. apply Htransient. lia. }
    exists e'. rewrite Hrest, retried_S, <- !plus_n_Sm. cbn [res now out plus].
    reflexivity.
Qed.

Lemma attempt_loop_ok (net : nat -> string -> outcome) (tryUrl : string)
    (retries fuel attempt : nat) (lastError : option thrown) (c : nat)
    (r : response) :
  attempt <= retries -> net c tryUrl = Responded r -> is_ok r = true ->
  attempt_loop net tryUrl retries (S fuel) attempt lastError c
  = mkRun (Ret (Returned r)) (S c) [Fetch tryUrl (net c tryUrl)].
Proof.
  intros Hle Hnet Hok. cbn [attempt_loop].
  replace (attempt <=? retries) with true by (symmetry; now apply Nat.leb_le).
  pose proof (@attempt_ok net tryUrl retries attempt lastError c r Hnet Hok)
    as Hrun.
  rewrite (bind_Ret _ _ _ (f_equal (@res _) Hrun)), Hrun.
  cbn [res now out ret]. now rewrite app_nil_r.
Qed.

Lemma attempt_loop_fatal (net : nat -> string -> outcome) (tryUrl : string)
    (retries fuel attempt : nat) (lastError : option thrown) (c : nat)
    (e : thrown) :
  attempt <= retries -> fatal_error (net c tryUrl) = Some e ->
  attempt_loop net tryUrl retries (S fuel) attempt lastError c
  = mkRun (Ret (Exhausted (Some e))) (S c) [Fetch tryUrl (net c tryUrl)].
Proof.
  intros Hle Hfatal. cbn [attempt_loop].
  replace (attempt <=? retries) with true by (symmetry; now apply Nat.leb_le).
  pose proof (@attempt_fatal net tryUrl retries attempt lastError c e Hfatal)
    as Hrun.
  rewrite (bind_Ret _ _ _ (f_equal (@res _) Hrun)), Hrun.
  cbn [res now out ret]. now rewrite app_nil_r.
Qed.

(** One host that answers after [k] transient answers. *)
Lemma host_succeeds (net : nat -> string -> outcome) (url : string)
    (retries c k : nat) (r : response) (lastError : option thrown) :
  k <= retries -> transient_run net url c k = true ->
  net (c + k) url = Responded r -> is_ok r = true ->
  attempt_loop net url retries (S retries) 0 lastError c
  = mkRun (Ret (Returned r)) (S (c + k))
          (retried net url c 0 k ++ [Fetch url (net (c + k) url)]).
Proof.
  intros Hk Hrun Hnet Hok.
  replace (S retries) with (k + S (retries - k)) by lia.
  destruct (@attempt_loop_retried net url retries (S (retries - k)) k 0
              lastError c) as (e & Heq);
    [lia | now apply transient_run_spec |].
  rewrite Heq. cbn [plus].
  now rewrite (@attempt_loop_ok net url retries (retries - k) k e (c + k) r).
Qed.

(** One host that is given up after [k] transient answers. *)
Lemma host_gives_up (net : nat -> string -> outcome) (url : string)
    (retries c k : nat) (e : thrown) (lastError : option thrown) :
  k <= retries -> transient_run net url c k = true ->
  gives_up retries k (net (c + k) url) = Some e ->
  attempt_loop net url retries (S retries) 0 lastError c
  = mkRun (Ret (Exhausted (Some e))) (S (c + k))
          (retried net url c 0 k ++ [Fetch url (net (c + k) url)]).
Proof.
  intros Hk Hrun Hgives.
  replace (S retries) with (k + S (retries - k)) by lia.
  destruct (@attempt_loop_retried net url retries (S (retries - k)) k 0
              lastError c) as (e' & Heq);
    [lia | now apply transient_run_spec |].
  rewrite Heq. cbn [plus]. unfold gives_up in Hgives.
  destruct (fatal_error (net (c + k) url)) as [e0 |] eqn:Hfatal.
  - injection Hgives as <-.
    now rewrite (@attempt_loop_fatal net url retries (retries - k) k e'
                   (c + k) e0).
  - destruct (transient (net (c + k) url)) eqn:Htransient; [| discriminate].
    destruct (Nat.eqb_spec k retries) as [-> | _]; [| discriminate].
    injection Hgives as <-.
    now rewrite (@attempt_loop_last net url retries (retries - retries) e'
                   (c + retries) Htransient).
Qed.

(** A host that answers after [k] transient answers ends the call. *)
Lemma fetchRedditJSON_retries_then_succeeds_spec
    (net : nat -> string -> outcome) (url : string) (retries c k : nat)
    (r : response) :
  k <= retries ->
  transient_run net url c k = true ->
  net (c + k) url = Responded r ->
  is_ok r = true ->
  fetchRedditJSON net url retries c
  = mkRun (match json_body r with
           | Parsed d => Ret d
           | Unparsable message => Throw (Err SyntaxError message)
           end)
          (S (c + k))
          (retried net url c 0 k ++ [Fetch url (net (c + k) url)]).
Proof.
  intros Hk Hrun Hnet Hok. unfold fetchRedditJSON. cbn [try_urls].
  pose proof (@host_succeeds net url retries c k r None Hk Hrun Hnet Hok)
    as Hhost.
  rewrite (bind_Ret _ _ _ (f_equal (@res _) Hhost)), Hhost.
  cbn [res now out].
  destruct (json_body r); cbn [res now out ret throw]; now rewrite app_nil_r.
Qed.

(** X1. When the first host answers [k <= retries] times transiently (429,
    or a connection error that does not mention "Reddit") and then with a
    success, [fetchRedditJSON] makes [k + 1] requests to that host only,
    pauses after each transient answer (5000 ms times the attempt number
    after a 429, 2000 ms after a connection error), and ends as
    [response.json()] of the success does: with the document, or with a
    syntax error that is not retried. *)
Theorem fetchRedditJSON_retries_then_succeeds
    (net : nat -> string -> outcome) (url : string) (retries c k : nat)
    (r : response) :
  k <= retries ->
  transient_run net url c k = true ->
  net (c + k) url = Responded r ->
  is_ok r = true ->
  fetchRedditJSON net url retries c
  = mkRun (match json_body r with
           | Parsed d => Ret d
           | Unparsable message => Throw (Err SyntaxError message)
           end)
          (S (c + k))
          (retried net url c 0 k ++ [Fetch url (net (c + k) url)]).
Proof.
  exact (@fetchRedditJSON_retries_then_succeeds_spec net url retries c k r).
Qed.

Lemma fetchRedditJSON_retries_then_succeeds_witness :
  fetchRedditJSON limited_twice "https://www.reddit.com/r/rocq/comments/a.json"
    2 0
  = mkRun (Ret thread) 3
      [Fetch "https://www.reddit.com/r/rocq/comments/a.json" (http 429);
       Sleep 5000;
       Fetch "https://www.reddit.com/r/rocq/comments/a.json" (http 429);
       Sleep (5000 * (1 + 1));
       Fetch "https://www.reddit.com/r/rocq/comments/a.json" (ok thread)].
Proof.
  apply (@fetchRedditJSON_retries_then_succeeds limited_twice
           "https://www.reddit.com/r/rocq/comments/a.json" 2 0 2
           {| status := 200; json_body := Parsed thread |});
    [lia | reflexivity | reflexivity | reflexivity].
Defined.

(** X2. When the first host is given up after [k1] transient answers (on a
    fatal answer, or on a transient answer to the last attempt) and the
    fallback host answers with a success after [k2] transient answers,
    [fetchRedditJSON] returns what the fallback host served; its requests are
    those [k1 + 1] to the first host followed by those [k2 + 1] to the
    fallback host, with no pause between the two hosts. *)
Theorem fetchRedditJSON_falls_back
    (net : nat -> string -> outcome) (url : string) (retries c k1 k2 : nat)
    (e1 : thrown) (r : response) :
  k1 <= retries ->
  transient_run net url c k1 = true ->
  gives_up retries k1 (net (c + k1) url) = Some e1 ->
  k2 <= retries ->
  transient_run net (fallback_url url) (S (c + k1)) k2 = true ->
  net (S (c + k1) + k2) (fallback_url url) = Responded r ->
  is_ok r = true ->
  fetchRedditJSON net url retries c
  = mkRun (match json_body r with
           | Parsed d => Ret d
           | Unparsable message => Throw (Err SyntaxError message)
           end)
          (S (S (c + k1) + k2))
          ((retried net url c 0 k1 ++ [Fetch url (net (c + k1) url)])
           ++ retried net (fallback_url url) (S (c + k1)) 0 k2
           ++ [Fetch (fallback_url url)
                 (net (S (c + k1) + k2) (fallback_url url))]).
Proof.
  intros Hk1 Hrun1 Hgives Hk2 Hrun2 Hnet Hok.
  unfold fetchRedditJSON. cbn [try_urls].
  pose proof (@host_gives_up net url retries c k1 e1 None Hk1 Hrun1 Hgives)
    as Hhost1.
  rewrite (bind_Ret _ _ _ (f_equal (@res _) Hhost1)), Hhost1.
  cbn [res now out].
  pose proof (@host_succeeds net (fallback_url url) retries (S (c + k1)) k2 r
                (Some e1) Hk2 Hrun2 Hnet Hok) as Hhost2.
  rewrite (bind_Ret _ _ _ (f_equal (@res _) Hhost2)), Hhost2.
  cbn [res now out].
  destruct (json_body r); cbn [res now out ret throw]; now rewrite app_nil_r.
Qed.

Lemma fetchRedditJSON_falls_back_witness :
  fetchRedditJSON flaky "https://www.reddit.com/r/rocq/new.json?limit=100" 2 0
  = mkRun (Ret thread) 4
      [Fetch "https://www.reddit.com/r/rocq/new.json?limit=100"
         (Rejected NonError);
       Sleep 2000;
       Fetch "https://www.reddit.com/r/rocq/new.json?limit=100" (http 500);
       Fetch "https://old.reddit.com/r/rocq/new.json?limit=100" (http 429);
       Sleep 5000;
       Fetch "https://old.reddit.com/r/rocq/new.json?limit=100" (ok thread)].
Proof.
  apply (@fetchRedditJSON_falls_back flaky
           "https://www.reddit.com/r/rocq/new.json?limit=100" 2 0 1 1
           (Err Error "Reddit API error: 500")
           {| status := 200; json_body := Parsed thread |});
    [lia | reflexivity | reflexivity | lia | reflexivity | reflexivity
     | reflexivity].
Defined.

(** X3. When both hosts are given up, the first after [k1] and the fallback
    after [k2] transient answers, [fetchRedditJSON] throws the error of the
    fallback host's last answer (the first host's error is dropped), after
    [k1 + 1] requests to the first host and [k2 + 1] to the fallback; the
    last answer of a host is followed by no pause. *)
Theorem fetchRedditJSON_gives_up
    (net : nat -> string -> outcome) (url : string) (retries c k1 k2 : nat)
    (e1 e2 : thrown) :
  k1 <= retries ->
  transient_run net url c k1 = true ->
  gives_up retries k1 (net (c + k1) url) = Some e1 ->
  k2 <= retries ->
  transient_run net (fallback_url url) (S (c + k1)) k2 = true ->
  gives_up retries k2 (net (S (c + k1) + k2) (fallback_url url)) = Some e2 ->
  fetchRedditJSON net url retries c
  = mkRun (Throw e2) (S (S (c + k1) + k2))
          ((retried net url c 0 k1 ++ [Fetch url (net (c + k1) url)])
           ++ retried net (fallback_url url) (S (c + k1)) 0 k2
           ++ [Fetch (fallback_url url)
                 (net (S (c + k1) + k2) (fallback_url url))]).
Proof.
  intros Hk1 Hrun1 Hgives1 Hk2 Hrun2 Hgives2.
  unfold fetchRedditJSON. cbn [try_urls].
  pose proof (@host_gives_up net url retries c k1 e1 None Hk1 Hrun1 Hgives1)
    as Hhost1.
  rewrite (bind_Ret _ _ _ (f_equal (@res _) Hhost1)), Hhost1.
  cbn [res now out].
  pose proof (@host_gives_up net (fallback_url url) retries (S (c + k1)) k2 e2
                (Some e1) Hk2 Hrun2 Hgives2) as Hhost2.
  rewrite (bind_Ret _ _ _ (f_equal (@res _) Hhost2)), Hhost2.
  cbn [res now out throw]. now rewrite app_nil_r.
Qed.

Lemma fetchRedditJSON_gives_up_witness :
  fetchRedditJSON always_limited
    "https://www.reddit.com/r/rocq/new.json?limit=100" 1 0
  = mkRun (Throw (Err Error rate_limited_message)) 4
      [Fetch "https://www.reddit.com/r/rocq/new.json?limit=100" (http 429);
       Sleep 5000;
       Fetch "https://www.reddit.com/r/rocq/new.json?limit=100" (http 429);
       Fetch "https://old.reddit.com/r/rocq/new.json?limit=100" (http 429);
       Sleep 5000;
       Fetch "https://old.reddit.com/r/rocq/new.json?limit=100" (http 429)].
Proof.
  apply (@fetchRedditJSON_gives_up always_limited
           "https://www.reddit.com/r/rocq/new.json?limit=100" 1 0 1 1
           (Err Error rate_limited_message) (Err Error rate_limited_message));
    [lia | reflexivity | reflexivity | lia | reflexivity | reflexivity].
Defined.

Lemma sleeps_app (t1 t2 : list io) : sleeps (t1 ++ t2) = sleeps t1 ++ sleeps t2.
Proof.
  induction t1 as [| [u o | ms | e | text e |] t1 IH]; cbn [app sleeps];
    now rewrite ?IH.
Qed.

Lemma fatal_error_is_Error (o : outcome) (e : thrown) :
  fatal_error o = Some e -> is_Error e.
Proof.
  destruct o as [r | [cl msg |]]; cbn; [| | discriminate].
  - destruct (is_ok r); [discriminate |].
    destruct (status r =? 429); [discriminate |].
    destruct (status r =? 403); intros [= <-]; exact I.
  - destruct (includes "Reddit" msg); [| discriminate].
    intros [= <-]. exact I.
Qed.

Lemma exhaustion_error_is_Error (o : outcome) : is_Error (exhaustion_error o).
Proof. now destruct o as [r | [cl msg |]]. Qed.

(** The effort of the attempt loop for one host, and the errors it leaves. *)
Lemma attempt_loop_bounded (net : nat -> string -> outcome) (tryUrl : string)
    (retries fuel : nat) :
  forall (attempt : nat) (lastError : option thrown) (c : nat),
    let R := attempt_loop net tryUrl retries fuel attempt lastError c in
    length (requests (out R)) <= S retries - attempt
    /\ length (sleeps (out R)) <= retries - attempt
    /\ Forall (retry_pause retries) (sleeps (out R))
    /\ ((forall e, lastError = Some e -> is_Error e) ->
        forall e, res R = Ret (Exhausted (Some e)) -> is_Error e).
Proof.
  induction fuel as [| fuel IH]; intros attempt lastError c; cbn zeta.
  - cbn [attempt_loop res now out requests sleeps length ret]. split; [lia |]. split; [lia |]. split; [constructor |].
    intros Hlast e [= ->]. now apply Hlast.
  - destruct (Nat.le_gt_cases attempt retries) as [Hle | Hgt].
    2:{ cbn [attempt_loop].
        replace (attempt <=? retries) with false
          by (symmetry; apply Nat.leb_gt; lia).
        cbn [res now out requests sleeps length ret].
      split; [lia |]. split; [lia |]. split; [constructor |].
        intros Hlast e [= ->]. now apply Hlast. }
    destruct (answer_cases (net c tryUrl))
      as [(r & Hnet & Hok) | [(e0 & Hfatal) | Htransient]].
    + rewrite (@attempt_loop_ok net tryUrl retries fuel attempt lastError c r)
        by assumption.
      cbn [res now out requests sleeps length ret].
      split; [lia |]. split; [lia |]. split; [constructor |].
      intros _ e [=].
    + rewrite (@attempt_loop_fatal net tryUrl retries fuel attempt lastError c
                 e0) by assumption.
      cbn [res now out requests sleeps length ret].
      split; [lia |]. split; [lia |]. split; [constructor |].
      intros _ e [= <-]. eapply fatal_error_is_Error; eassumption.
    + destruct (Nat.eq_dec attempt retries) as [-> | Hne].
      * rewrite (@attempt_loop_last net tryUrl retries fuel lastError c)
          by assumption.
        cbn [res now out requests sleeps length ret].
      split; [lia |]. split; [lia |]. split; [constructor |].
        intros _ e [= <-]. apply exhaustion_error_is_Error.
      * cbn [attempt_loop].
        replace (attempt <=? retries) with true
          by (symmetry; now apply Nat.leb_le).
        destruct (@attempt_transient net tryUrl retries attempt lastError c)
          as (e' & Hrun & He'); [assumption | lia |].
        rewrite (bind_Ret _ _ _ (f_equal (@res _) Hrun)), Hrun.
        cbn [res now out].
        destruct (IH (S attempt) e' (S c)) as (Hrq & Hsl & Hpause & Herr).
        cbn [app requests sleeps length].
        split; [lia |]. split; [lia |]. split.
        { constructor; [| assumption]. unfold pause.
          destruct (rate_limited (net c tryUrl)); [right | now left].
          exists attempt. split; [lia | reflexivity]. }
        intros Hlast. apply Herr. intros e ->.
        destruct He' as [He' | [= ->]];
          [now apply Hlast | apply exhaustion_error_is_Error].
Qed.

(** The effort of one call of the fetcher, and what it throws. *)
Lemma fetchRedditJSON_effort (net : nat -> string -> outcome)
    (url : string) (retries c : nat) :
  let r := fetchRedditJSON net url retries c in
  1 <= length (requests (out r)) <= 2 * (retries + 1)
  /\ length (sleeps (out r)) <= 2 * retries
  /\ Forall (retry_pause retries) (sleeps (out r))
  /\ forall e, res r = Throw e -> is_Error e.
Proof.
  cbn zeta. unfold fetchRedditJSON. cbn [try_urls].
  set (R1 := attempt_loop net url retries (S retries) 0 None).
  destruct (@attempt_loop_bounded net url retries (S retries) 0 None c)
    as (Hrq1 & Hsl1 & Hp1 & Herr1).
  destruct (@attempt_loop_spec net url retries (S retries) 0 None c)
    as ((h1 & Hres1) & _ & _ & Hne1).
  fold R1 in Hrq1, Hsl1, Hp1, Herr1, Hres1, Hne1.
  assert (Hpos1 : 1 <= length (requests (out (R1 c)))).
  { destruct (requests (out (R1 c))); [now elim Hne1; try lia | cbn; lia]. }
  rewrite (bind_Ret _ _ _ Hres1). cbn [res now out].
  destruct h1 as [resp | e1].
  - destruct (json_body resp); cbn [res now out ret throw];
      rewrite app_nil_r;
      (split; [lia |]); (split; [lia |]); (split; [assumption |]).
    + intros e [=].
    + intros e [= <-]. exact I.
  - set (R2 := attempt_loop net (fallback_url url) retries (S retries) 0 e1).
    destruct (@attempt_loop_bounded net (fallback_url url) retries (S retries)
                0 e1 (now (R1 c))) as (Hrq2 & Hsl2 & Hp2 & Herr2).
    destruct (@attempt_loop_spec net (fallback_url url) retries (S retries) 0
                e1 (now (R1 c))) as ((h2 & Hres2) & _ & _ & _).
    fold R2 in Hrq2, Hsl2, Hp2, Herr2, Hres2.
    rewrite (bind_Ret _ _ _ Hres2). cbn [res now out].
    assert (Hshape :
      forall tail : run document,
        out tail = [] ->
        (forall e, res tail = Throw e -> is_Error e) ->
        1 <= length (requests (out (R1 c) ++ out (R2 (now (R1 c)))
                               ++ out tail)) <= 2 * (retries + 1)
        /\ length (sleeps (out (R1 c) ++ out (R2 (now (R1 c))) ++ out tail))
           <= 2 * retries
        /\ Forall (retry_pause retries)
             (sleeps (out (R1 c) ++ out (R2 (now (R1 c))) ++ out tail))
        /\ forall e, res tail = Throw e -> is_Error e).
    { intros tail -> Htail. rewrite app_nil_r, requests_app, sleeps_app.
      rewrite !length_app. split; [lia |]. split; [lia |].
      split; [| assumption]. apply Forall_app. now split. }
    destruct h2 as [resp | e2].
    + destruct (json_body resp); apply Hshape; cbn; try reflexivity.
      * intros e [=].
      * intros e [= <-]. exact I.
    + cbn [try_urls]. apply Hshape; [reflexivity |].
      cbn [throw res]. intros e [= <-].
      destruct e2 as [e2 |]; [| exact I]. apply Herr2; [| assumption].
      intros e ->. destruct e as [cl msg |] eqn:He; [exact I |].
      exfalso. assert (Hbad : is_Error NonError); [| exact Hbad].
      apply Herr1; [discriminate |]. rewrite <- He. subst e.
      exact Hres1.
Qed.

(** X4. Whatever the network answers, one call of [fetchRedditJSON] makes at
    least one and at most [2 * (retries + 1)] requests and at most
    [2 * retries] pauses, each of 2000 ms or of 5000 ms times the number of
    an attempt that is not the last; and whatever it throws is an error
    object. *)
Theorem fetchRedditJSON_bounded (net : nat -> string -> outcome)
    (url : string) (retries c : nat) :
  let r := fetchRedditJSON net url retries c in
  1 <= length (requests (out r)) <= 2 * (retries + 1)
  /\ length (sleeps (out r)) <= 2 * retries
  /\ Forall (retry_pause retries) (sleeps (out r))
  /\ forall e, res r = Throw e -> is_Error e.
Proof. exact (fetchRedditJSON_effort net url retries c). Qed.

(* ===================================================================== *)
(** ** Further properties of [fetchPosts] and [fetchComments] *)
(* ===================================================================== *)

Lemma requests_writes (es : list SSE) : requests (map Write es) = [].
Proof. induction es as [| e es IH]; cbn; [reflexivity | exact IH]. Qed.

Lemma sleeps_writes (es : list SSE) : sleeps (map Write es) = [].
Proof. induction es as [| e es IH]; cbn; [reflexivity | exact IH]. Qed.

(** The requests of one call of the fetcher go to its url or to the
    fallback of it. *)
Lemma fetchRedditJSON_urls (net : nat -> string -> outcome) (url : string)
    (retries c : nat) :
  Forall (fun rq => fst rq = url \/ fst rq = fallback_url url)
         (requests (out (fetchRedditJSON net url retries c))).
Proof.
  pose proof (fetchRedditJSON_passes net url retries c) as Hpass.
  cbn zeta in Hpass.
  destruct (@attempt_loop_spec net url retries (S retries) 0 None c)
    as ((h1 & Hres1) & Hurl1 & _).
  rewrite Hres1 in Hpass.
  assert (H1 : Forall (fun rq => fst rq = url \/ fst rq = fallback_url url)
                 (requests (out (attempt_loop net url retries (S retries) 0
                                   None c)))).
  { eapply Forall_impl; [| exact Hurl1]. cbn beta. auto. }
  destruct h1 as [resp | e1].
  - destruct Hpass as (-> & _). exact H1.
  - destruct Hpass as (-> & _). apply Forall_app. split; [exact H1 |].
    destruct (@attempt_loop_spec net (fallback_url url) retries (S retries) 0
                e1 (now (attempt_loop net url retries (S retries) 0 None c)))
      as (_ & Hurl2 & _).
    eapply Forall_impl; [| exact Hurl2]. cbn beta. auto.
Qed.

(** One pass of the page loop asks what its fetch asks, and pauses as its
    fetch does, and once more when a next page follows. *)
Lemma page_try_effort (net : nat -> string -> outcome)
    (subreddit sortBy : string) (skipCount totalNeeded : nat)
    (allPosts : list RedditPost) (after : option string) (c : nat) :
  length allPosts < totalNeeded ->
  let f := fetchRedditJSON net (listing_url subreddit sortBy after) 2 c in
  let R := page_try net subreddit sortBy sendSSE skipCount totalNeeded
             allPosts after c in
  requests (out R) = requests (out f)
  /\ (sleeps (out R) = sleeps (out f)
      \/ sleeps (out R) = sleeps (out f) ++ [DELAY_BETWEEN_REQUESTS]).
Proof.
  intros Hroom. cbn zeta.
  destruct (res (fetchRedditJSON net (listing_url subreddit sortBy after) 2 c))
    as [d | e] eqn:Hf.
  - destruct d as [l | segs | msg].
    + destruct (listing_children l) as [[| p cs] |] eqn:Hcs.
      * rewrite (@page_try_empty net subreddit sortBy skipCount totalNeeded
                   allPosts after c l Hf) by auto.
        cbn [out]. auto.
      * pose proof (@page_try_children net subreddit sortBy skipCount
                      totalNeeded allPosts after c l p cs Hf Hcs Hroom) as H.
        cbn zeta in H. rewrite H.
        destruct (truthy_str (listing_after l)); cbn [out];
          rewrite ?requests_app, ?sleeps_app, requests_writes, sleeps_writes;
          cbn [requests sleeps app]; rewrite ?app_nil_r; auto.
      * rewrite (@page_try_empty net subreddit sortBy skipCount totalNeeded
                   allPosts after c l Hf) by auto.
        cbn [out]. auto.
    + destruct (@page_try_not_listing net subreddit sortBy skipCount
                  totalNeeded allPosts after c _ Hf) as (e & ->);
        [discriminate | cbn [out]; auto].
    + destruct (@page_try_not_listing net subreddit sortBy skipCount
                  totalNeeded allPosts after c _ Hf) as (e & ->);
        [discriminate | cbn [out]; auto].
  - rewrite (@page_try_throw net subreddit sortBy skipCount totalNeeded
               allPosts after c e Hf).
    cbn [out]. auto.
Qed.

Lemma retry_pause_delay : retry_pause 2 DELAY_BETWEEN_REQUESTS.
Proof. now left. Qed.

(** The effort of the page loop. *)
Lemma page_loop_effort (net : nat -> string -> outcome)
    (subreddit sortBy : string) (skipCount totalNeeded : nat) (fuel : nat) :
  forall (attempts : nat) (allPosts : list RedditPost)
         (after : option string) (c : nat),
    let R := page_loop net subreddit sortBy sendSSE skipCount totalNeeded fuel
               attempts allPosts after c in
    length (requests (out R)) <= 6 * fuel
    /\ Forall (fun rq => listing_request subreddit sortBy (fst rq))
              (requests (out R))
    /\ Forall (retry_pause 2) (sleeps (out R)).
Proof.
  induction fuel as [| fuel IH]; intros attempts allPosts after c; cbn zeta.
  - cbn. split; [lia |]. split; constructor.
  - cbn [page_loop].
    destruct (Nat.ltb_spec (length allPosts) totalNeeded) as [Hroom | _];
      [| cbn; split; [lia |]; split; constructor].
    destruct (attempts <? maxAttempts);
      [| cbn; split; [lia |]; split; constructor].
    cbn [andb]. rewrite bind_try_rethrow.
    destruct (@page_try_effort net subreddit sortBy skipCount totalNeeded
                allPosts after c Hroom) as (Hrq & Hsl).
    destruct (@fetchRedditJSON_effort net (listing_url subreddit sortBy after)
                2 c) as ((_ & Hcount) & _ & Hpause & _).
    pose proof (fetchRedditJSON_urls net (listing_url subreddit sortBy after)
                  2 c) as Hurls.
    set (f := fetchRedditJSON net (listing_url subreddit sortBy after) 2 c)
      in *.
    set (P := page_try net subreddit sortBy sendSSE skipCount totalNeeded
                allPosts after) in *.
    assert (Hcount' : length (requests (out (P c))) <= 6)
      by (rewrite Hrq; cbn in Hcount; lia).
    assert (Hurls' : Forall (fun rq => listing_request subreddit sortBy (fst rq))
                       (requests (out (P c)))).
    { rewrite Hrq. eapply Forall_impl; [| exact Hurls].
      cbn beta. intros rq Hcase. exists after. exact Hcase. }
    assert (Hpause' : Forall (retry_pause 2) (sleeps (out (P c)))).
    { destruct Hsl as [-> | ->]; [exact Hpause |].
      apply Forall_app. split; [exact Hpause |].
      constructor; [exact retry_pause_delay | constructor]. }
    destruct (res (P c)) as [[allPosts' | allPosts' after'] | e] eqn:HP.
    + rewrite (bind_Ret _ _ _ HP). cbn [res now out ret].
      rewrite app_nil_r. split; [lia |]. now split.
    + rewrite (bind_Ret _ _ _ HP). cbn [res now out].
      destruct (IH (S attempts) allPosts' after' (now (P c)))
        as (Hn & Hu & Hp).
      rewrite requests_app, sleeps_app, length_app.
      split; [lia |]. split; apply Forall_app; now split.
    + rewrite (bind_Throw _ _ _ HP). cbn [res now out].
      split; [lia |]. now split.
Qed.

(** The effort of [fetchPosts]. *)
Lemma fetchPosts_requests (net : nat -> string -> outcome)
    (subreddit sortBy : string) (targetCount skipCount c : nat) :
  let r := fetchPosts net subreddit sortBy targetCount skipCount sendSSE c in
  length (requests (out r)) <= 6 * maxAttempts
  /\ Forall (fun rq => listing_request subreddit sortBy (fst rq))
            (requests (out r))
  /\ Forall (retry_pause 2) (sleeps (out r)).
Proof.
  cbn zeta. unfold fetchPosts.
  pose proof (@page_loop_effort net subreddit sortBy skipCount
                (skipCount + targetCount) maxAttempts 0 [] None c) as H.
  cbn zeta in H.
  set (loop := page_loop net subreddit sortBy sendSSE skipCount
                 (skipCount + targetCount) maxAttempts 0 [] None) in *.
  destruct (res (loop c)) as [allPosts | e] eqn:Hloop.
  - rewrite (bind_Ret _ _ _ Hloop). cbn [res now out ret].
    now rewrite app_nil_r.
  - rewrite (bind_Throw _ _ _ Hloop). exact H.
Qed.

(** X5. Whatever the network answers, [fetchPosts] makes at most
    [6 * maxAttempts] = 600 requests (100 pages, two hosts, three attempts
    each); every one of them goes to a page of the listing of the given
    subreddit and sort order, on www.reddit.com or on the fallback host; and
    every pause is of 2000 ms, 5000 ms or 10000 ms. *)
Theorem fetchPosts_effort (net : nat -> string -> outcome)
    (subreddit sortBy : string) (targetCount skipCount c : nat) :
  let r := fetchPosts net subreddit sortBy targetCount skipCount sendSSE c in
  length (requests (out r)) <= 6 * maxAttempts
  /\ Forall (fun rq => listing_request subreddit sortBy (fst rq))
            (requests (out r))
  /\ Forall (retry_pause 2) (sleeps (out r)).
Proof.
  exact (fetchPosts_requests net subreddit sortBy targetCount skipCount c).
Qed.

Lemma firstn_skipn_app {A : Type} (a b : nat) :
  forall xs : list A,
    firstn a xs ++ firstn b (skipn a xs) = firstn (a + b) xs.
Proof.
  induction a as [| a IH]; intros xs; [reflexivity |].
  destruct xs as [| x xs]; cbn [plus firstn skipn app].
  - now rewrite firstn_nil.
  - now rewrite IH.
Qed.

Lemma slice_app {A : Type} (i a b : nat) (xs : list A) :
  slice i (i + a) xs ++ slice (i + a) (i + (a + b)) xs
  = slice i (i + (a + b)) xs.
Proof.
  unfold slice.
  replace (i + a - i) with a by lia.
  replace (i + (a + b) - (i + a)) with b by lia.
  replace (i + (a + b) - i) with (a + b) by lia.
  rewrite (Nat.add_comm i a), <- skipn_skipn.
  apply firstn_skipn_app.
Qed.

(** X6. [skipCount] resumes where an earlier run stopped: on the same
    network, the posts returned for the target [a] after skipping
    [skipCount], followed by those returned for the target [b] after
    skipping [skipCount + a], are the posts returned for the target
    [a + b] after skipping [skipCount]; no post is lost or repeated at the
    seam. *)
Theorem fetchPosts_resumes (net : nat -> string -> outcome)
    (subreddit sortBy : string) (a b skipCount c : nat)
    (first second both : list RedditPost) :
  res (fetchPosts net subreddit sortBy a skipCount sendSSE c) = Ret first ->
  res (fetchPosts net subreddit sortBy b (skipCount + a) sendSSE c)
  = Ret second ->
  res (fetchPosts net subreddit sortBy (a + b) skipCount sendSSE c)
  = Ret both ->
  both = first ++ second.
Proof.
  intros H1 H2 H12.
  destruct (fetchPosts_spec net subreddit sortBy a skipCount c)
    as (k1 & _ & _ & Hp1).
  destruct (fetchPosts_spec net subreddit sortBy b (skipCount + a) c)
    as (k2 & _ & _ & Hp2).
  destruct (fetchPosts_spec net subreddit sortBy (a + b) skipCount c)
    as (k12 & _ & _ & Hp12).
  destruct (Hp1 _ H1) as (_ & ->).
  destruct (Hp2 _ H2) as (_ & ->).
  destruct (Hp12 _ H12) as (_ & ->).
  rewrite <- map_app. f_equal.
  rewrite <- (Nat.add_assoc skipCount a b). symmetry. apply slice_app.
Qed.

Lemma fetchPosts_resumes_witness :
  [extractPost (text_post "a"); extractPost (text_post "c")]
  = [extractPost (text_post "a")] ++ [extractPost (text_post "c")].
Proof.
  apply (@fetchPosts_resumes blocked_once "rocq" "new" 1 1 0 0);
    vm_compute; reflexivity.
Defined.

Lemma firstn_ranked (n : nat) :
  forall (rank : nat) (children : list CommentData),
    firstn n (ranked rank children) = ranked rank (firstn n children).
Proof.
  induction n as [| n IH]; intros rank [| child children];
    cbn [firstn ranked]; try reflexivity.
  now rewrite IH.
Qed.

(** X7. [limit] only truncates: on the same answers, [fetchComments] with a
    smaller limit makes the same requests and pauses, fails when and as the
    call with the larger limit fails, and otherwise returns the first
    [limit] comments of what that call returns, ranks included. *)
Theorem fetchComments_limit_truncates (net : nat -> string -> outcome)
    (permalink : string) (limit limit' c : nat) :
  limit <= limit' ->
  let r := fetchComments net permalink limit c in
  let r' := fetchComments net permalink limit' c in
  out r = out r'
  /\ res r = match res r' with
             | Ret comments => Ret (firstn limit comments)
             | Throw e => Throw e
             end.
Proof.
  intros Hle. cbn zeta. unfold fetchComments.
  destruct (res (fetchRedditJSON net (comments_url permalink) 2 c))
    as [d | e] eqn:Hf.
  2:{ rewrite !(bind_Throw _ _ _ Hf). cbn [res out]. auto. }
  rewrite !(bind_Ret _ _ _ Hf). cbn [res out].
  destruct d as [l | segments | msg]; cbn [res out ret];
    [now rewrite firstn_nil | | now rewrite firstn_nil].
  destruct (length segments <? 2); cbn [res out ret];
    [now rewrite firstn_nil |].
  destruct (nth_error segments 1) as [[children | msg] |];
    cbn [res out ret throw]; [| auto | now rewrite firstn_nil].
  split; [reflexivity |]. f_equal.
  rewrite !collect_comments_spec. cbn [app length].
  rewrite !Nat.sub_0_r, firstn_ranked, firstn_firstn.
  now rewrite Nat.min_l.
Qed.

Lemma fetchComments_limit_truncates_witness :
  let r := fetchComments (serves thread) "/r/rocq/comments/a" 1 0 in
  let r' := fetchComments (serves thread) "/r/rocq/comments/a" 2 0 in
  out r = out r'
  /\ res r = match res r' with
             | Ret comments => Ret (firstn 1 comments)
             | Throw e => Throw e
             end.
Proof.
  apply (@fetchComments_limit_truncates (serves thread) "/r/rocq/comments/a"
           1 2 0).
  lia.
Defined.

(* ===================================================================== *)
(** ** Further properties of the handler *)
(* ===================================================================== *)

(** [fetchComments] performs the actions of its fetch and no other. *)
Lemma fetchComments_out (net : nat -> string -> outcome) (permalink : string)
    (limit c : nat) :
  out (fetchComments net permalink limit c)
  = out (fetchRedditJSON net (comments_url permalink) 2 c).
Proof.
  unfold fetchComments.
  destruct (res (fetchRedditJSON net (comments_url permalink) 2 c))
    as [d | e] eqn:Hf.
  2:{ now rewrite (bind_Throw _ _ _ Hf). }
  rewrite (bind_Ret _ _ _ Hf). cbn [out].
  destruct d as [l | segments | msg]; cbn [out ret];
    [apply app_nil_r | | apply app_nil_r].
  destruct (length segments <? 2); cbn [out ret]; [apply app_nil_r |].
  destruct (nth_error segments 1) as [[children | msg] |];
    cbn [out ret throw]; apply app_nil_r.
Qed.

Lemma comment_request_incl (posts posts' : list RedditPost) (url : string) :
  incl posts posts' -> comment_request posts url -> comment_request posts' url.
Proof.
  intros Hincl (post & Hin & Hurl). exists post. split; [auto | exact Hurl].
Qed.

(** The effort of the per-post loop. *)
Lemma post_loop_effort (net : nat -> string -> outcome) (config : ScrapeConfig)
    (n : nat) (rest : list RedditPost) :
  forall (i totalComments : nat) (results : list ExportItem) (c : nat),
    let R := post_loop net config n rest i totalComments results c in
    length (requests (out R)) <= 6 * length rest
    /\ Forall (fun rq => comment_request rest (fst rq)) (requests (out R))
    /\ Forall (retry_pause 2) (sleeps (out R)).
Proof.
  induction rest as [| post rest IH]; intros i totalComments results c;
    cbn zeta.
  - cbn. split; [lia |]. split; constructor.
  - rewrite post_loop_cons. cbn zeta. rewrite post_attempt_run. cbn zeta.
    destruct (@fetchRedditJSON_effort net (comments_url (post_permalink post))
                2 c) as ((_ & Hcount) & _ & Hpause & _).
    pose proof (fetchRedditJSON_urls net (comments_url (post_permalink post))
                  2 c) as Hurls.
    rewrite <- (fetchComments_out net (post_permalink post)
                  (commentsPerPost config) c) in Hcount, Hpause, Hurls.
    set (fc := fetchComments net (post_permalink post)
                 (commentsPerPost config) c) in *.
    assert (Hcount' : length (requests (out fc)) <= 6) by lia.
    clear Hcount.
    assert (Hurls' : Forall (fun rq => comment_request (post :: rest) (fst rq))
                       (requests (out fc))).
    { eapply Forall_impl; [| exact Hurls]. cbn beta. intros rq Hcase.
      exists post. split; [now left | exact Hcase]. }
    assert (Hrest : forall t : list (string * outcome),
              Forall (fun rq => comment_request rest (fst rq)) t ->
              Forall (fun rq => comment_request (post :: rest) (fst rq)) t).
    { intros t Ht. eapply Forall_impl; [| exact Ht]. cbn beta. intros rq.
      apply comment_request_incl. intros p Hin. now right. }
    destruct (res fc) as [comments | e]; cbn [res now out fst snd].
    + destruct (IH (S i) (totalComments + length comments)
                  (results ++ [export_item (exportMode config) post comments])
                  (now fc)) as (Hn & Hu & Hp).
      cbn [requests sleeps length].
      rewrite !requests_app, !sleeps_app, !length_app.
      cbn [requests sleeps length app].
      rewrite ?app_nil_r. split; [lia |]. split.
      * apply Forall_app. split; [exact Hurls' | now apply Hrest].
      * apply Forall_app. split; [| exact Hp].
        apply Forall_app. split; [exact Hpause |].
        constructor; [exact retry_pause_delay | constructor].
    + destruct (IH (S i) totalComments results (now fc)) as (Hn & Hu & Hp).
      cbn [requests sleeps length].
      rewrite !requests_app, !sleeps_app, !length_app.
      cbn [requests sleeps length app].
      rewrite ?app_nil_r. split; [lia |]. split.
      * apply Forall_app. split; [exact Hurls' | now apply Hrest].
      * apply Forall_app. split; [exact Hpause | exact Hp].
Qed.

(** The effort of a run of the handler. *)
Lemma api_scrape_effort_spec (net : nat -> string -> outcome)
    (config : ScrapeConfig) (c : nat) :
  let r := api_scrape net config c in
  let fp := fetchPosts net (subreddit config) (sort_name (sortBy config))
              (postCount config) (skipPosts config) sendSSE c in
  length (requests (out r)) <= 6 * maxAttempts + 6 * postCount config
  /\ Forall (fun rq =>
               listing_request (subreddit config) (sort_name (sortBy config))
                 (fst rq)
               \/ exists posts,
                    res fp = Ret posts /\ comment_request posts (fst rq))
            (requests (out r))
  /\ Forall (retry_pause 2) (sleeps (out r)).
Proof.
  cbn zeta. destruct (api_scrape_spec net config c) as (_ & ->).
  destruct (@fetchPosts_requests net (subreddit config)
              (sort_name (sortBy config)) (postCount config)
              (skipPosts config) c) as (Hcount & Hurls & Hpause).
  destruct (fetchPosts_spec net (subreddit config) (sort_name (sortBy config))
              (postCount config) (skipPosts config) c)
    as (k & _ & Hk & Hposts).
  cbn zeta in Hcount, Hurls, Hpause, Hposts.
  set (fp := fetchPosts net (subreddit config) (sort_name (sortBy config))
               (postCount config) (skipPosts config) sendSSE c) in *.
  assert (Hleft : Forall
                    (fun rq =>
                       listing_request (subreddit config)
                         (sort_name (sortBy config)) (fst rq)
                       \/ exists posts,
                            res fp = Ret posts
                            /\ comment_request posts (fst rq))
                    (requests (out fp))).
  { eapply Forall_impl; [| exact Hurls]. cbn beta. auto. }
  cbn [requests sleeps]. rewrite requests_app, sleeps_app, length_app.
  destruct (res fp) as [posts | e] eqn:Hfp.
  2:{ cbn [requests sleeps length]. rewrite !app_nil_r.
      split; [lia |]. now split. }
  destruct (length posts =? 0).
  { cbn [requests sleeps length]. rewrite !app_nil_r.
    split; [lia |]. now split. }
  destruct (Hposts posts eq_refl) as (Hlen & _).
  destruct (@post_loop_effort net config (length posts) posts 0 0 [] (now fp))
    as (Hn & Hu & Hp).
  rewrite !requests_app, !sleeps_app. cbn [requests sleeps].
  rewrite !app_nil_r.
  split; [lia |]. split; apply Forall_app; split; try assumption.
  eapply Forall_impl; [| exact Hu]. cbn beta. intros rq Hrq.
  right. exists posts. now split.
Qed.


Lemma processed_app (es1 es2 : list SSE) :
  processed (es1 ++ es2) = processed es1 ++ processed es2.
Proof.
  induction es1 as [| [n [p |] t m | m d | m] es1 IH]; cbn [app processed];
    now rewrite ?IH.
Qed.

Lemma counted_app (es1 es2 : list SSE) :
  counted (es1 ++ es2) = counted es1 ++ counted es2.
Proof.
  induction es1 as [| [n p [t |] m | m d | m] es1 IH]; cbn [app counted];
    now rewrite ?IH.
Qed.

Lemma logged_app (t1 t2 : list io) : logged (t1 ++ t2) = logged t1 ++ logged t2.
Proof.
  induction t1 as [| [u o | ms | e | text e |] t1 IH]; cbn [app logged];
    now rewrite ?IH.
Qed.

Lemma network_logged (t : list io) : Forall network_action t -> logged t = [].
Proof.
  induction 1 as [| [u o | ms | e | text e |] t Ha _ IH]; cbn [logged];
    try exact IH; try reflexivity; destruct Ha.
Qed.

(** The progress events of [fetchPosts] carry neither counter. *)
Lemma page_events_counters (skipCount from count : nat) :
  processed (page_events skipCount from count) = []
  /\ counted (page_events skipCount from count) = [].
Proof.
  unfold page_events. generalize (S from) as start.
  induction count as [| count IH]; intros start; [now split |].
  cbn [seq map]. unfold post_progress at 1 3.
  destruct (start <=? skipCount); cbn [processed counted]; apply IH.
Qed.

Lemma sorted_snoc (xs : list nat) (m : nat) :
  StronglySorted le xs -> Forall (fun x => x <= m) xs ->
  StronglySorted le (xs ++ [m]).
Proof.
  induction 1 as [| x xs Hsorted IH Hx]; intros Hm; cbn [app].
  - constructor; constructor.
  - inversion Hm as [| ? ? Hxm Hm']; subst.
    constructor; [now apply IH |].
    apply Forall_app. split; [exact Hx | now constructor].
Qed.

Lemma collected_cons (post : RedditPost) (comments : list RedditComment)
    (ok : list (RedditPost * list RedditComment)) :
  collected ((post, comments) :: ok) = length comments + collected ok.
Proof. reflexivity. Qed.

(** The counters of the events of the per-post loop. *)
Lemma post_loop_counters (net : nat -> string -> outcome)
    (config : ScrapeConfig) (n : nat) (rest : list RedditPost) :
  forall (i totalComments : nat) (results : list ExportItem) (c : nat),
    let es := events (out (post_loop net config n rest i totalComments
                             results c)) in
    let ok := succeeded (comment_attempts net (commentsPerPost config) rest c) in
    processed es = seq i (length rest)
    /\ StronglySorted le (counted es)
    /\ Forall (fun x => totalComments <= x <= totalComments + collected ok)
              (counted es).
Proof.
  induction rest as [| post rest IH]; intros i totalComments results c;
    cbn zeta.
  - cbn. split; [reflexivity |]. split; constructor.
  - rewrite post_loop_cons. cbn zeta. cbn [comment_attempts].
    rewrite post_attempt_run. cbn zeta.
    pose proof (fetchComments_network net (post_permalink post)
                  (commentsPerPost config) c) as Hnet.
    apply network_events in Hnet.
    set (fc := fetchComments net (post_permalink post)
                 (commentsPerPost config) c) in *.
    destruct (res fc) as [comments | e];
      cbn [res now out fst snd succeeded].
    + destruct (IH (S i) (totalComments + length comments)
                  (results ++ [export_item (exportMode config) post comments])
                  (now fc)) as (Hproc & Hsorted & Hbound).
      cbn [events]. rewrite !events_app, Hnet. cbn [events app].
      unfold processing at 1 2 3. cbn [processed counted length seq].
      rewrite Hproc. split; [reflexivity |].
      rewrite collected_cons.
      split.
      * constructor; [exact Hsorted |].
        eapply Forall_impl; [| exact Hbound]. cbn beta. lia.
      * constructor; [lia |].
        eapply Forall_impl; [| exact Hbound]. cbn beta. lia.
    + destruct (IH (S i) totalComments results (now fc))
        as (Hproc & Hsorted & Hbound).
      cbn [events]. rewrite !events_app, Hnet. cbn [events app].
      unfold processing at 1 2 3. cbn [processed counted length seq].
      rewrite Hproc. split; [reflexivity |].
      split.
      * constructor; [exact Hsorted |].
        eapply Forall_impl; [| exact Hbound]. cbn beta. lia.
      * constructor; [lia |]. exact Hbound.
Qed.

(** The events of a run that found posts. *)
Lemma api_scrape_events (net : nat -> string -> outcome)
    (config : ScrapeConfig) (c : nat) (posts : list RedditPost) :
  let fp := fetchPosts net (subreddit config) (sort_name (sortBy config))
              (postCount config) (skipPosts config) sendSSE c in
  res fp = Ret posts -> posts <> [] ->
  let ok := succeeded (comment_attempts net (commentsPerPost config) posts
                         (now fp)) in
  out (api_scrape net config c)
  = Write (opening config) :: out fp
      ++ out (post_loop net config (length posts) posts 0 0 [] (now fp))
      ++ [Write (finalizing (length posts) (collected ok));
          Write (complete (summary config (length posts) (collected ok))
                          (exported (exportMode config) ok));
          EndResponse].
Proof.
  cbn zeta. intros Hfp Hposts.
  destruct (api_scrape_spec net config c) as (_ & ->). cbn zeta.
  rewrite Hfp. destruct posts as [| post posts]; [now elim Hposts |].
  reflexivity.
Qed.

(** X9. In a run that found posts, the [postsProcessed] fields of the
    progress events are 0 (the opening event), then 0, 1, ..., n - 1 (one
    event before each of the n posts) and at last n; the events in between,
    sent by [fetchPosts], carry no such field.  The [commentsCollected]
    fields never decrease. *)
Theorem api_scrape_counters (net : nat -> string -> outcome)
    (config : ScrapeConfig) (c : nat) (posts : list RedditPost) :
  res (fetchPosts net (subreddit config) (sort_name (sortBy config))
         (postCount config) (skipPosts config) sendSSE c) = Ret posts ->
  posts <> [] ->
  let es := events (out (api_scrape net config c)) in
  processed es = 0 :: seq 0 (length posts) ++ [length posts]
  /\ StronglySorted le (counted es).
Proof.
  intros Hfp Hposts. cbn zeta.
  rewrite (@api_scrape_events net config c posts Hfp Hposts).
  destruct (fetchPosts_spec net (subreddit config) (sort_name (sortBy config))
              (postCount config) (skipPosts config) c)
    as (k & Hev & _).
  cbn zeta in Hev.
  set (fp := fetchPosts net (subreddit config) (sort_name (sortBy config))
               (postCount config) (skipPosts config) sendSSE c) in *.
  destruct (@post_loop_counters net config (length posts) posts 0 0 [] (now fp))
    as (Hproc & Hsorted & Hbound).
  cbn zeta in Hproc, Hsorted, Hbound.
  destruct (page_events_counters (skipPosts config) 0 k) as (Hp0 & Hc0).
  cbn [events]. rewrite !events_app, Hev. cbn [events].
  unfold opening at 1 2. cbn [processed counted].
  rewrite !processed_app, !counted_app, Hp0, Hc0, Hproc.
  unfold finalizing. cbn [processed counted app].
  split; [reflexivity |].
  constructor.
  - apply sorted_snoc; [exact Hsorted |].
    eapply Forall_impl; [| exact Hbound]. cbn beta. lia.
  - apply Forall_forall. intros x _. lia.
Qed.

Lemma api_scrape_counters_witness :
  let es := events (out (api_scrape blocked_once (sample_config clean) 0)) in
  processed es = 0 :: seq 0 2 ++ [2] /\ StronglySorted le (counted es).
Proof.
  apply (@api_scrape_counters blocked_once (sample_config clean) 0
           [extractPost (text_post "a"); extractPost (text_post "c")]).
  - vm_compute. reflexivity.
  - discriminate.
Defined.

Lemma post_loop_logged (net : nat -> string -> outcome)
    (config : ScrapeConfig) (n : nat) (rest : list RedditPost) :
  forall (i totalComments : nat) (results : list ExportItem) (c : nat),
    logged (out (post_loop net config n rest i totalComments results c))
    = failures (comment_attempts net (commentsPerPost config) rest c).
Proof.
  induction rest as [| post rest IH]; intros i totalComments results c.
  - reflexivity.
  - rewrite post_loop_cons. cbn zeta. cbn [comment_attempts].
    rewrite post_attempt_run. cbn zeta.
    pose proof (fetchComments_network net (post_permalink post)
                  (commentsPerPost config) c) as Hnet.
    apply network_logged in Hnet.
    set (fc := fetchComments net (post_permalink post)
                 (commentsPerPost config) c) in *.
    destruct (res fc) as [comments | e];
      cbn [res now out fst snd failures logged];
      rewrite !logged_app, Hnet, IH; reflexivity.
Qed.

Lemma succeeded_failures
    (attempts : list (RedditPost * result (list RedditComment))) :
  length (succeeded attempts) + length (failures attempts) = length attempts.
Proof.
  induction attempts as [| [post [comments | e]] attempts IH];
    cbn [succeeded failures length]; lia.
Qed.

Lemma page_events_logged (es : list SSE) : logged (map Write es) = [].
Proof. induction es as [| e es IH]; cbn; [reflexivity | exact IH]. Qed.

(** [fetchPosts] logs nothing. *)
Lemma fetchPosts_logged (net : nat -> string -> outcome)
    (subreddit sortBy : string) (targetCount skipCount c : nat) :
  logged (out (fetchPosts net subreddit sortBy targetCount skipCount sendSSE c))
  = [].
Proof.
  assert (Hemits : emits (fun a => match a with
                                   | ConsoleError _ _ => False
                                   | _ => True
                                   end)
                     (fetchPosts net subreddit sortBy targetCount skipCount
                        sendSSE)).
  { assert (Hfetch : forall url,
              emits (fun a => match a with
                              | ConsoleError _ _ => False
                              | _ => True
                              end) (fetchRedditJSON net url 2)).
    { intros url c'. eapply Forall_impl;
        [| apply (fetchRedditJSON_network net url 2 c')].
      intros [u o | ms | e | text e |]; cbn; auto. }
    assert (Hscan : forall skip total cs allPosts,
              emits (fun a => match a with
                              | ConsoleError _ _ => False
                              | _ => True
                              end)
                    (scan_children sendSSE skip total cs allPosts)).
    { intros skip total cs. induction cs as [| p cs IH]; intros allPosts;
        cbn [scan_children]; [apply emits_ret |].
      destruct (negb (isMediaPost p)); [| apply IH].
      apply emits_bind; [now apply emits_emit |]. intros _.
      destruct (_ <=? _); [apply emits_ret | apply IH]. }
    unfold fetchPosts. apply emits_bind; [| intros; apply emits_ret].
    generalize 0 as attempts, (@nil RedditPost) as allPosts,
      (@None string) as after.
    generalize maxAttempts at 1 as fuel.
    induction fuel as [| fuel IH];
      intros attempts allPosts after; cbn [page_loop]; [apply emits_ret |].
    destruct (_ && _); [| apply emits_ret].
    apply emits_bind.
    - apply emits_try_catch; [| intros; apply emits_throw].
      unfold page_try. apply emits_bind; [apply Hfetch |].
      intros [l | segments | msg]; try apply emits_throw.
      destruct (listing_children l) as [[| p cs] |]; try apply emits_ret.
      apply emits_bind; [apply Hscan |]. intros allPosts'.
      destruct (negb _); [apply emits_ret |].
      apply emits_bind; [now apply emits_emit | intros; apply emits_ret].
    - intros [allPosts' | allPosts' after']; [apply emits_ret | apply IH]. }
  specialize (Hemits c).
  induction Hemits as [| [u o | ms | e | text e |] t Ha _ IH]; cbn [logged];
    try exact IH; try reflexivity; destruct Ha.
Qed.

(** X10. In a run that found posts every post is accounted for: the
    handler logs with [console.error], in order, exactly the posts whose
    comment fetch failed, each with its id and the error; and the number of
    records in the [complete] event plus the number of logged failures is
    the number of posts. *)
Theorem api_scrape_accounts_for_posts (net : nat -> string -> outcome)
    (config : ScrapeConfig) (c : nat) (posts : list RedditPost) :
  let fp := fetchPosts net (subreddit config) (sort_name (sortBy config))
              (postCount config) (skipPosts config) sendSSE c in
  res fp = Ret posts ->
  posts <> [] ->
  let r := api_scrape net config c in
  logged (out r)
  = failures (comment_attempts net (commentsPerPost config) posts (now fp))
  /\ exists message data,
       In (Write (complete message data)) (out r)
       /\ length data + length (logged (out r)) = length posts.
Proof.
  cbn zeta. intros Hfp Hposts.
  rewrite (@api_scrape_events net config c posts Hfp Hposts).
  set (fp := fetchPosts net (subreddit config) (sort_name (sortBy config))
               (postCount config) (skipPosts config) sendSSE c) in *.
  set (attempts := comment_attempts net (commentsPerPost config) posts
                     (now fp)).
  assert (Hlogged :
    logged (Write (opening config) :: out fp
              ++ out (post_loop net config (length posts) posts 0 0 []
                        (now fp))
              ++ [Write (finalizing (length posts)
                           (collected (succeeded attempts)));
                  Write (complete
                           (summary config (length posts)
                              (collected (succeeded attempts)))
                           (exported (exportMode config)
                              (succeeded attempts)));
                  EndResponse])
    = failures attempts).
  { cbn [logged]. rewrite !logged_app. unfold fp at 1.
    rewrite fetchPosts_logged, post_loop_logged. cbn [logged app].
    now rewrite app_nil_r. }
  rewrite Hlogged. split; [reflexivity |].
  eexists _, _. split.
  - right. apply in_or_app. right. apply in_or_app. right.
    right. left. reflexivity.
  - unfold exported. rewrite length_map, succeeded_failures.
    apply comment_attempts_length.
Qed.

Lemma api_scrape_accounts_for_posts_witness :
  logged (out (api_scrape blocked_once (sample_config clean) 0))
  = [("Error fetching comments for post a:", Err Error blocked_message)].
Proof.
  apply (@api_scrape_accounts_for_posts blocked_once (sample_config clean) 0
           [extractPost (text_post "a"); extractPost (text_post "c")]).
  - vm_compute. reflexivity.
  - discriminate.
Defined.

Lemma in_events (e : SSE) (t : list io) : In (Write e) t -> In e (events t).
Proof.
  induction t as [| [u o | ms | e' | text e' |] t IH]; cbn [In events];
    [now intros [] | | | | |];
    intros [H | H]; try discriminate H; auto.
  injection H as ->. now left.
Qed.









Lemma throws_ret {A : Type} (P : thrown -> Prop) (a : A) : throws P (ret a).
Proof. intros c e H. discriminate H. Qed.

Lemma throws_throw {A : Type} (P : thrown -> Prop) (e : thrown) :
  P e -> throws P (@throw A e).
Proof. intros H c e' [= <-]. exact H. Qed.

Lemma throws_emit (P : thrown -> Prop) (a : io) : throws P (emit a).
Proof. intros c e H. discriminate H. Qed.

Lemma throws_bind {A B : Type} (P : thrown -> Prop) (m : M A) (f : A -> M B) :
  throws P m -> (forall a, throws P (f a)) -> throws P (bind m f).
Proof.
  intros Hm Hf c e. unfold bind.
  destruct (res (m c)) as [a | e'] eqn:Hres; cbn [res].
  - apply Hf.
  - intros [= <-]. eapply Hm, Hres.
Qed.

Lemma throws_rethrow {A : Type} (P : thrown -> Prop) (m : M A) :
  throws P m -> throws P (try_catch m (fun error => throw error)).
Proof. intros Hm c e. rewrite try_catch_rethrow. apply Hm. Qed.

(** [fetchPosts] throws error objects only. *)
Lemma fetchPosts_throws (net : nat -> string -> outcome)
    (subreddit sortBy : string) (targetCount skipCount : nat) :
  throws is_Error
    (fetchPosts net subreddit sortBy targetCount skipCount sendSSE).
Proof.
  assert (Hfetch : forall url, throws is_Error (fetchRedditJSON net url 2)).
  { intros url c e. apply (fetchRedditJSON_effort net url 2 c). }
  assert (Hscan : forall skip total cs allPosts,
            throws is_Error (scan_children sendSSE skip total cs allPosts)).
  { intros skip total cs. induction cs as [| p cs IH]; intros allPosts;
      cbn [scan_children]; [apply throws_ret |].
    destruct (negb (isMediaPost p)); [| apply IH].
    apply throws_bind; [apply throws_emit |]. intros _.
    destruct (_ <=? _); [apply throws_ret | apply IH]. }
  unfold fetchPosts. apply throws_bind; [| intros; apply throws_ret].
  generalize 0 as attempts, (@nil RedditPost) as allPosts,
    (@None string) as after.
  generalize maxAttempts at 1 as fuel.
  induction fuel as [| fuel IH];
    intros attempts allPosts after; cbn [page_loop]; [apply throws_ret |].
  destruct (_ && _); [| apply throws_ret].
  apply throws_bind.
  - apply throws_rethrow.
    unfold page_try. apply throws_bind; [apply Hfetch |].
    intros [l | segments | msg]; try (now apply throws_throw).
    destruct (listing_children l) as [[| p cs] |]; try apply throws_ret.
    apply throws_bind; [apply Hscan |]. intros allPosts'.
    destruct (negb _); [apply throws_ret |].
    apply throws_bind; [apply throws_emit | intros; apply throws_ret].
  - intros [allPosts' | allPosts' after']; [apply throws_ret | apply IH].
Qed.

(** X12. An [error] event always says why the run ended: its message is
    either "No text posts found in this subreddit." after [fetchPosts]
    returned no post, or the message of the error object that [fetchPosts]
    threw.  So a failed comment fetch never ends a run with an [error]
    event, and the text "An unknown error occurred" is sent only if an error
    object carries it. *)
Theorem api_scrape_error_event (net : nat -> string -> outcome)
    (config : ScrapeConfig) (c : nat) (message : string) :
  let fp := fetchPosts net (subreddit config) (sort_name (sortBy config))
              (postCount config) (skipPosts config) sendSSE c in
  In (Write (error message)) (out (api_scrape net config c)) ->
  (res fp = Ret [] /\ message = "No text posts found in this subreddit.")
  \/ exists class, res fp = Throw (Err class message).
Proof.
  cbn zeta. intros Hin. apply in_events in Hin.
  destruct (api_scrape_spec net config c) as (_ & Hout).
  cbn zeta in Hout. rewrite Hout in Hin. clear Hout.
  destruct (fetchPosts_spec net (subreddit config) (sort_name (sortBy config))
              (postCount config) (skipPosts config) c)
    as (k & Hev & _).
  cbn zeta in Hev.
  pose proof (@fetchPosts_throws net (subreddit config)
                (sort_name (sortBy config)) (postCount config)
                (skipPosts config) c) as Hthrows.
  set (fp := fetchPosts net (subreddit config) (sort_name (sortBy config))
               (postCount config) (skipPosts config) sendSSE c) in *.
  cbn [events] in Hin. rewrite events_app, Hev in Hin.
  destruct Hin as [Hin | Hin]; [discriminate Hin |].
  apply in_app_or in Hin. destruct Hin as [Hin | Hin].
  { unfold page_events in Hin. apply in_map_iff in Hin.
    destruct Hin as (j & Hj & _). unfold post_progress in Hj.
    destruct (j <=? skipPosts config); discriminate Hj. }
  destruct (res fp) as [posts | e] eqn:Hfp.
  - destruct posts as [| post posts].
    + cbn in Hin. destruct Hin as [[= <-] | []]. now left.
    + exfalso. cbn [length Nat.eqb] in Hin.
      destruct (@post_loop_spec net config (length (post :: posts))
                  (post :: posts) 0 0 [] (now fp)) as (_ & Hloop & _).
      rewrite events_app in Hin. apply in_app_or in Hin.
      destruct Hin as [Hin | Hin].
      * rewrite Forall_forall in Hloop.
        destruct (Hloop _ Hin) as (i & t & m & H). discriminate H.
      * cbn in Hin. destruct Hin as [Hin | [Hin | []]]; discriminate Hin.
  - right. specialize (Hthrows e eq_refl).
    destruct e as [class msg |]; [| destruct Hthrows].
    cbn in Hin. destruct Hin as [[= <-] | []]. now exists class.
Qed.

Lemma api_scrape_error_event_witness :
  (res (fetchPosts unreachable "rocq" "new" 5 0 sendSSE 0) = Ret []
   /\ "fetch failed" = "No text posts found in this subreddit.")
  \/ exists class,
       res (fetchPosts unreachable "rocq" "new" 5 0 sendSSE 0)
       = Throw (Err class "fetch failed").
Proof.
  apply (@api_scrape_error_event unreachable (sample_config clean) 0
           "fetch failed").
  vm_compute. repeat (first [left; reflexivity | right]).
Defined.

(* ===================================================================== *)
(** ** Properties of the page *)
(* ===================================================================== *)

Lemma split_nonempty (sep : ascii) (s : string) : split sep s <> [].
Proof.
  destruct s as [| ch rest]; cbn [split]; [discriminate |].
  destruct (Ascii.eqb ch sep); [discriminate |].
  destruct (split sep rest); discriminate.
Qed.

(** Splitting a text in two pieces: the lines the first piece completes,
    then the lines of its unfinished last line continued by the second. *)
Lemma split_app (sep : ascii) (x y : string) :
  split sep (x +++ y)
  = removelast (split sep x) ++ split sep (last (split sep x) "" +++ y).
Proof.
  induction x as [| ch x IH]; [reflexivity |].
  cbn [String.append split].
  pose proof (split_nonempty sep x) as Hx.
  destruct (Ascii.eqb ch sep) eqn:Hch.
  - rewrite IH. destruct (split sep x) as [| l ls]; [now elim Hx |].
    reflexivity.
  - rewrite IH. destruct (split sep x) as [| l [| l2 ls]]; [now elim Hx | |].
    + cbn [removelast last app String.append split]. now rewrite Hch.
    + cbn [removelast last app]. reflexivity.
Qed.

Lemma append_assoc (x y z : string) : (x +++ y) +++ z = x +++ (y +++ z).
Proof. induction x as [| ch x IH]; cbn; [reflexivity | now rewrite IH]. Qed.

Lemma append_nil_r (x : string) : x +++ "" = x.
Proof. induction x as [| ch x IH]; cbn; [reflexivity | now rewrite IH]. Qed.

Lemma concat_cons (x : string) (xs : list string) :
  String.concat "" (x :: xs) = x +++ String.concat "" xs.
Proof.
  destruct xs as [| y ys]; cbn [String.concat];
    [now rewrite append_nil_r | reflexivity].
Qed.

Lemma last_app_nonempty {A : Type} (xs ys : list A) (d : A) :
  ys <> [] -> last (xs ++ ys) d = last ys d.
Proof.
  intros Hys. induction xs as [| x xs IH]; [reflexivity |].
  cbn [app last]. rewrite IH.
  destruct (xs ++ ys) eqn:H; [| reflexivity].
  apply app_eq_nil in H. now destruct H.
Qed.

(** The lines of a text are single lines. *)
Lemma split_single_lines (s : string) :
  Forall (fun line => single_line line = true) (split (ascii_of_nat 10) s).
Proof.
  induction s as [| ch s IH]; cbn [split].
  - now constructor.
  - destruct (Ascii.eqb ch (ascii_of_nat 10)) eqn:Hch.
    + now constructor.
    + destruct (split (ascii_of_nat 10) s) as [| l ls];
        [constructor; [cbn [single_line]; now rewrite Hch | constructor] |].
      inversion IH as [| ? ? Hl Hls]; subst.
      constructor; [| exact Hls]. cbn [single_line]. now rewrite Hch, Hl.
Qed.

Lemma split_single_line (s : string) :
  single_line s = true -> split (ascii_of_nat 10) s = [s].
Proof.
  induction s as [| ch s IH]; cbn [single_line split]; [reflexivity |].
  intros H. apply andb_true_iff in H. destruct H as (Hch & Hs).
  apply negb_true_iff in Hch. now rewrite Hch, IH.
Qed.

(** A single line followed by a line feed is the first line of a text. *)
Lemma split_line (line rest : string) :
  single_line line = true ->
  split (ascii_of_nat 10) (line +++ newline +++ rest)
  = line :: split (ascii_of_nat 10) rest.
Proof.
  induction line as [| ch line IH]; cbn [single_line]; intros H.
  - cbn [String.append newline split]. now rewrite Ascii.eqb_refl.
  - apply andb_true_iff in H. destruct H as (Hch & Hline).
    apply negb_true_iff in Hch.
    cbn [String.append split]. rewrite Hch.
    cbn [String.append] in IH. now rewrite IH.
Qed.

Lemma on_lines_app (JSON_parse : string -> parsed_line)
    (lines1 lines2 : list string) :
  forall st,
    on_lines JSON_parse (lines1 ++ lines2) st
    = match on_lines JSON_parse lines1 st with
      | Went st' => on_lines JSON_parse lines2 st'
      | Thrown e st' => Thrown e st'
      end.
Proof.
  induction lines1 as [| line lines1 IH]; intros st; cbn [app on_lines];
    [reflexivity |].
  destruct (on_line JSON_parse line st); [apply IH | reflexivity].
Qed.

(** The loop over the chunks handles the complete lines of the text the
    chunks add up to, in order, whatever the chunks are. *)
Lemma read_loop_text (JSON_parse : string -> parsed_line)
    (chunks : list string) (ending : option thrown) :
  forall (buffer : string) (st : Home),
    single_line buffer = true ->
    read_loop JSON_parse chunks ending buffer st
    = match on_lines JSON_parse
              (removelast (split (ascii_of_nat 10)
                             (buffer +++ String.concat "" chunks))) st with
      | Went st' =>
          match ending with
          | None => Went st'
          | Some e => Thrown e st'
          end
      | Thrown e st' => Thrown e st'
      end.
Proof.
  induction chunks as [| value chunks IH]; intros buffer st Hbuffer.
  - cbn [read_loop String.concat]. rewrite append_nil_r.
    now rewrite (split_single_line _ Hbuffer).
  - cbn [read_loop]. cbv zeta. rewrite concat_cons, <- append_assoc.
    rewrite (split_app (ascii_of_nat 10) (buffer +++ value)
               (String.concat "" chunks)).
    rewrite removelast_app by apply split_nonempty.
    rewrite on_lines_app.
    destruct (on_lines JSON_parse
                (removelast (split (ascii_of_nat 10) (buffer +++ value))) st)
      as [st' | e st']; [| reflexivity].
    apply IH.
    pose proof (split_single_lines (buffer +++ value)) as Hlines.
    pose proof (split_nonempty (ascii_of_nat 10) (buffer +++ value)) as Hne.
    rewrite Forall_forall in Hlines. apply Hlines.
    rewrite (app_removelast_last "" Hne) at 2.
    apply in_or_app. right. now left.
Qed.

(** X13. The page does not depend on how the network cuts the event stream
    into chunks: [startScraping] ends in the same state for any chunks as
    for the one chunk that holds the whole text. *)
Theorem startScraping_chunking (JSON_parse : string -> parsed_line)
    (config : ScrapeConfig) (chunks : list string) (ending : option thrown)
    (st : Home) :
  startScraping JSON_parse config (Body chunks ending) st
  = startScraping JSON_parse config (Body [String.concat "" chunks] ending) st.
Proof.
  unfold startScraping. cbv zeta.
  rewrite !read_loop_text by reflexivity.
  cbn [String.concat]. reflexivity.
Qed.

Lemma frames_lines (JSON_stringify : SSE -> string) (es : list SSE) :
  Forall (fun data => single_line (JSON_stringify data) = true) es ->
  split (ascii_of_nat 10) (response_text JSON_stringify es)
  = frame_lines JSON_stringify es ++ [""].
Proof.
  unfold response_text, frame_lines.
  induction 1 as [| data es Hdata _ IH]; [reflexivity |].
  cbn [map flat_map app]. rewrite concat_cons.
  assert (Hframe :
    sse_frame JSON_stringify data
      +++ String.concat "" (map (sse_frame JSON_stringify) es)
    = ("data: " +++ JSON_stringify data) +++ newline
        +++ ("" +++ newline
               +++ String.concat "" (map (sse_frame JSON_stringify) es))).
  { unfold sse_frame. now rewrite !append_assoc. }
  rewrite Hframe, split_line, split_line, IH; [reflexivity | reflexivity |].
  cbn. exact Hdata.
Qed.

Lemma on_line_frame (JSON_stringify : SSE -> string)
    (JSON_parse : string -> parsed_line) (data : SSE) (st : Home) :
  JSON_parse (JSON_stringify data) = EventLine data ->
  on_line JSON_parse ("data: " +++ JSON_stringify data) st = on_data data st.
Proof.
  intros Hparse. unfold on_line.
  assert (Hstarts : startsWith "data: " ("data: " +++ JSON_stringify data)
                    = true).
  { unfold startsWith. cbn. now destruct (JSON_stringify data). }
  rewrite Hstarts. cbn [String.append slice_from]. now rewrite Hparse.
Qed.

Lemma on_lines_frames (JSON_stringify : SSE -> string)
    (JSON_parse : string -> parsed_line) (ps : list SSE) :
  Forall (round_trips JSON_stringify JSON_parse) ps ->
  Forall (fun e => is_progress e = true) ps ->
  forall (rest : list string) (st : Home),
    on_lines JSON_parse (frame_lines JSON_stringify ps ++ rest) st
    = on_lines JSON_parse rest (absorbed ps st).
Proof.
  unfold frame_lines.
  induction ps as [| data ps IH]; intros Hcodec Hprogress rest st;
    [reflexivity |].
  inversion Hcodec as [| ? ? (_ & Hparse) Hcodec']; subst.
  inversion Hprogress as [| ? ? Hdata Hprogress']; subst.
  cbn [flat_map app on_lines absorbed fold_left].
  rewrite (@on_line_frame JSON_stringify JSON_parse data st Hparse).
  destruct data as [n p t m | m d | m]; try discriminate Hdata.
  cbn [on_data absorb]. cbn [on_line startsWith String.prefix].
  now apply IH.
Qed.

(** What progress events leave alone. *)
Lemma absorbed_progress (ps : list SSE) :
  Forall (fun e => is_progress e = true) ps ->
  forall st,
    home_exportData (absorbed ps st) = home_exportData st
    /\ home_toasts (absorbed ps st) = home_toasts st
    /\ sp_status (home_progress (absorbed ps st))
       = sp_status (home_progress st)
    /\ sp_targetPosts (home_progress (absorbed ps st))
       = sp_targetPosts (home_progress st).
Proof.
  induction 1 as [| data ps Hdata _ IH]; intros st; [now repeat split |].
  destruct data as [n p t m | m d | m]; try discriminate Hdata.
  cbn [absorbed fold_left].
  destruct (IH (absorb (progress n p t m) st)) as (H1 & H2 & H3 & H4).
  unfold absorbed in *. rewrite H1, H2, H3, H4. now repeat split.
Qed.

(** The run of [startScraping] on the text of progress events followed by
    one last event. *)
Lemma startScraping_stream (JSON_stringify : SSE -> string)
    (JSON_parse : string -> parsed_line) (config : ScrapeConfig)
    (chunks : list string) (ps : list SSE) (last_event : SSE) (st : Home) :
  String.concat "" chunks = response_text JSON_stringify (ps ++ [last_event]) ->
  Forall (round_trips JSON_stringify JSON_parse) (ps ++ [last_event]) ->
  Forall (fun e => is_progress e = true) ps ->
  startScraping JSON_parse config (Body chunks None) st
  = settled (on_data last_event (absorbed ps (started config st))).
Proof.
  intros Htext Hcodec Hprogress. unfold startScraping. cbv zeta.
  fold (started config st).
  rewrite read_loop_text by reflexivity.
  cbn [String.append]. rewrite Htext, frames_lines.
  2:{ eapply Forall_impl; [| exact Hcodec]. now intros e (H & _). }
  rewrite removelast_last. unfold frame_lines. rewrite flat_map_app.
  fold (frame_lines JSON_stringify ps).
  apply Forall_app in Hcodec. destruct Hcodec as (Hps & Hlast).
  inversion Hlast as [| ? ? (_ & Hparse) _]; subst.
  rewrite (on_lines_frames Hps Hprogress).
  cbn [flat_map app on_lines].
  rewrite (@on_line_frame JSON_stringify JSON_parse last_event _ Hparse).
  destruct (on_data last_event (absorbed ps (started config st)))
    as [st' | e st']; reflexivity.
Qed.

(** X14. When the response is the text of a sequence of events that
    [JSON.parse] reads back, progress events followed by one last event,
    then whatever the chunks are the page ends as that last event says:
    after [complete], with the status "complete", its message and its data
    as the export data, and no toast; after [error], with the status
    "error", its message, no export data and the toast "Scraping failed";
    and if the stream ends on a progress event the status stays "scraping"
    for good.  The target stays the configured [postCount]. *)
Theorem startScraping_follows_stream (JSON_stringify : SSE -> string)
    (JSON_parse : string -> parsed_line) (config : ScrapeConfig)
    (chunks : list string) (ps : list SSE) (last_event : SSE) (st : Home) :
  String.concat "" chunks = response_text JSON_stringify (ps ++ [last_event]) ->
  Forall (round_trips JSON_stringify JSON_parse) (ps ++ [last_event]) ->
  Forall (fun e => is_progress e = true) ps ->
  let st' := startScraping JSON_parse config (Body chunks None) st in
  sp_targetPosts (home_progress st') = postCount config
  /\ match last_event with
     | complete message data =>
         sp_status (home_progress st') = status_complete
         /\ sp_message (home_progress st') = Some message
         /\ home_exportData st' = Some data
         /\ home_toasts st' = home_toasts st
     | error message =>
         sp_status (home_progress st') = status_error
         /\ sp_message (home_progress st') = Some message
         /\ home_exportData st' = None
         /\ home_toasts st' = home_toasts st ++ [failure_toast message]
     | progress _ _ _ message =>
         sp_status (home_progress st') = status_scraping
         /\ sp_message (home_progress st') = Some message
         /\ home_exportData st' = None
         /\ home_toasts st' = home_toasts st
     end.
Proof.
  intros Htext Hcodec Hprogress. cbn zeta.
  rewrite (@startScraping_stream JSON_stringify JSON_parse config chunks ps
             last_event st Htext Hcodec Hprogress).
  destruct (absorbed_progress Hprogress (started config st))
    as (Hdata & Htoasts & Hstatus & Htarget).
  destruct last_event as [n p t m | m d | m];
    cbn [settled on_data setProgress setExportData toast home_progress
         home_exportData home_toasts sp_status sp_message sp_targetPosts];
    rewrite ?Hdata, ?Htoasts, ?Hstatus, ?Htarget; now repeat split.
Qed.

Lemma startScraping_follows_stream_witness :
  let st' := startScraping sample_parse (sample_config clean)
               (Body sample_chunks None) initial_home in
  sp_targetPosts (home_progress st') = 5
  /\ sp_status (home_progress st') = status_error
  /\ sp_message (home_progress st') = Some "fetch failed"
  /\ home_exportData st' = None
  /\ home_toasts st' = [failure_toast "fetch failed"].
Proof.
  apply (@startScraping_follows_stream sample_stringify sample_parse
           (sample_config clean) sample_chunks
           [progress 0 (Some 0) (Some 0) "Fetching posts..."]
           (error "fetch failed") initial_home).
  - reflexivity.
  - repeat constructor.
  - repeat constructor.
Defined.

(** The events of a run of the handler: progress events, then the event
    that ends the run; a [complete] event comes right after the
    "Finalizing..." event. *)
Lemma api_scrape_stream (net : nat -> string -> outcome)
    (config : ScrapeConfig) (c : nat) :
  let fp := fetchPosts net (subreddit config) (sort_name (sortBy config))
              (postCount config) (skipPosts config) sendSSE c in
  let es := events (out (api_scrape net config c)) in
  exists ps,
    Forall (fun e => is_progress e = true) ps
    /\ match res fp with
       | Throw e => es = ps ++ [error (thrown_message e)]
       | Ret [] => es = ps ++ [error "No text posts found in this subreddit."]
       | Ret posts =>
           let ok := succeeded (comment_attempts net (commentsPerPost config)
                                  posts (now fp)) in
           es = (ps ++ [finalizing (length posts) (collected ok)])
                  ++ [complete (summary config (length posts) (collected ok))
                               (exported (exportMode config) ok)]
       end.
Proof.
  cbn zeta. destruct (api_scrape_spec net config c) as (_ & ->).
  destruct (fetchPosts_spec net (subreddit config) (sort_name (sortBy config))
              (postCount config) (skipPosts config) c)
    as (k & Hev & _).
  cbn zeta in Hev.
  set (fp := fetchPosts net (subreddit config) (sort_name (sortBy config))
               (postCount config) (skipPosts config) sendSSE c) in *.
  pose proof (page_events_progress (skipPosts config) 0 k) as Hpage.
  rewrite forallb_forall in Hpage. rewrite <- Forall_forall in Hpage.
  assert (Hopening : Forall (fun e => is_progress e = true)
                       (opening config :: page_events (skipPosts config) 0 k))
    by now constructor.
  cbn [events]. rewrite events_app, Hev.
  destruct (res fp) as [[| post posts] | e].
  - exists (opening config :: page_events (skipPosts config) 0 k).
    split; [exact Hopening | reflexivity].
  - cbn [length Nat.eqb]. cbn zeta.
    destruct (@post_loop_spec net config (length (post :: posts))
                (post :: posts) 0 0 [] (now fp)) as (_ & Hloop & _).
    apply loop_events_progress in Hloop.
    rewrite forallb_forall in Hloop. rewrite <- Forall_forall in Hloop.
    exists ((opening config :: page_events (skipPosts config) 0 k)
            ++ events (out (post_loop net config (length (post :: posts))
                              (post :: posts) 0 0 [] (now fp)))).
    split; [apply Forall_app; now split |].
    rewrite events_app. cbn [events app]. now rewrite <- !app_assoc.
  - exists (opening config :: page_events (skipPosts config) 0 k).
    split; [exact Hopening | reflexivity].
Qed.

Lemma absorbed_app (es1 es2 : list SSE) (st : Home) :
  absorbed (es1 ++ es2) st = absorbed es2 (absorbed es1 st).
Proof. unfold absorbed. apply fold_left_app. Qed.

(** X15. The page shows what the run of the handler came to, whatever the
    chunks of the response are, as long as [JSON.parse] reads back what
    [JSON.stringify] wrote: when [fetchPosts] throws, the status "error"
    with the message of the error; when it returns no post, the status
    "error" with "No text posts found in this subreddit."; otherwise the
    status "complete", the records of the posts whose comments could be
    fetched as the export data, the number of posts as posts found and as
    posts processed, and the number of their comments.  The status is never
    left at "scraping". *)
Theorem page_shows_run (net : nat -> string -> outcome)
    (JSON_stringify : SSE -> string) (JSON_parse : string -> parsed_line)
    (config : ScrapeConfig) (c : nat) (chunks : list string) (st : Home) :
  let fp := fetchPosts net (subreddit config) (sort_name (sortBy config))
              (postCount config) (skipPosts config) sendSSE c in
  let es := events (out (api_scrape net config c)) in
  String.concat "" chunks = response_text JSON_stringify es ->
  Forall (round_trips JSON_stringify JSON_parse) es ->
  let st' := startScraping JSON_parse config (Body chunks None) st in
  match res fp with
  | Throw e =>
      sp_status (home_progress st') = status_error
      /\ sp_message (home_progress st') = Some (thrown_message e)
      /\ home_exportData st' = None
  | Ret [] =>
      sp_status (home_progress st') = status_error
      /\ sp_message (home_progress st')
         = Some "No text posts found in this subreddit."
      /\ home_exportData st' = None
  | Ret posts =>
      let ok := succeeded (comment_attempts net (commentsPerPost config) posts
                             (now fp)) in
      sp_status (home_progress st') = status_complete
      /\ home_exportData st' = Some (exported (exportMode config) ok)
      /\ sp_postsFound (home_progress st') = length posts
      /\ sp_postsProcessed (home_progress st') = length posts
      /\ sp_commentsCollected (home_progress st') = collected ok
  end.
Proof.
  cbn zeta. intros Htext Hcodec.
  destruct (api_scrape_stream net config c) as (ps & Hps & Hes).
  cbn zeta in Hes.
  set (fp := fetchPosts net (subreddit config) (sort_name (sortBy config))
               (postCount config) (skipPosts config) sendSSE c) in *.
  set (es := events (out (api_scrape net config c))) in *.
  destruct (res fp) as [[| post posts] | e].
  - rewrite Hes in Htext, Hcodec.
    rewrite (@startScraping_stream JSON_stringify JSON_parse config chunks ps
               _ st Htext Hcodec Hps).
    destruct (absorbed_progress Hps (started config st))
      as (Hdata & _ & _ & _).
    cbn [settled on_data setProgress setExportData toast home_progress
         home_exportData home_toasts sp_status sp_message].
    now rewrite Hdata.
  - rewrite Hes in Htext, Hcodec.
    assert (Hps' : Forall (fun e => is_progress e = true)
                     (ps ++ [finalizing (length (post :: posts))
                               (collected
                                  (succeeded
                                     (comment_attempts net
                                        (commentsPerPost config)
                                        (post :: posts) (now fp))))]))
      by (apply Forall_app; split; [exact Hps | now constructor]).
    rewrite (@startScraping_stream JSON_stringify JSON_parse config chunks _
               _ st Htext Hcodec Hps').
    rewrite absorbed_app.
    destruct (absorbed_progress Hps (started config st))
      as (_ & _ & Hstatus & _).
    cbn [absorbed fold_left absorb finalizing settled on_data setProgress
         setExportData home_progress home_exportData sp_status sp_message
         sp_postsFound sp_postsProcessed sp_commentsCollected nullish].
    now repeat split.
  - rewrite Hes in Htext, Hcodec.
    rewrite (@startScraping_stream JSON_stringify JSON_parse config chunks ps
               _ st Htext Hcodec Hps).
    destruct (absorbed_progress Hps (started config st))
      as (Hdata & _ & _ & _).
    cbn [settled on_data setProgress setExportData toast home_progress
         home_exportData home_toasts sp_status sp_message].
    rewrite Hdata. destruct e as [cl msg |]; now repeat split.
Qed.

Lemma page_shows_run_witness :
  let st' := startScraping sample_parse (sample_config clean)
               (Body sample_chunks None) initial_home in
  sp_status (home_progress st') = status_error
  /\ sp_message (home_progress st') = Some "fetch failed"
  /\ home_exportData st' = None.
Proof.
  apply (@page_shows_run unreachable sample_stringify sample_parse
           (sample_config clean) 0 sample_chunks initial_home).
  - vm_compute. reflexivity.
  - vm_compute. repeat constructor.
Defined.

(* ===================================================================== *)
(** ** Properties of the request *)
(* ===================================================================== *)

Lemma parse_number_bounds (min max default : Z) (value : option json)
    (n : nat) :
  (0 <= min <= default)%Z -> (default <= max)%Z ->
  parse_number min max default value = Some n ->
  (min <= Z.of_nat n <= max)%Z.
Proof.
  intros Hmin Hdefault. unfold parse_number.
  destruct value as [[| b | z | s | items | members] |]; try discriminate.
  - destruct (Z.leb_spec min z); [| discriminate].
    destruct (Z.leb_spec z max); [| discriminate].
    cbn [andb]. intros [= <-]. lia.
  - intros [= <-]. lia.
Qed.

(** An accepted configuration is within the bounds of the schema. *)
Lemma safeParse_sound (body : option RequestBody) (config : ScrapeConfig) :
  safeParse body = Some config -> scrapeConfigSchema config = true.
Proof.
  unfold safeParse. destruct body as [b |]; [| discriminate].
  destruct (parse_name (body_subreddit b)) as [name |] eqn:Hname;
    [| discriminate].
  destruct (parse_number 1 1000 200 (body_postCount b)) as [pc |] eqn:Hpc;
    [| discriminate].
  destruct (parse_number 0 5000 0 (body_skipPosts b)) as [sk |] eqn:Hsk;
    [| discriminate].
  destruct (parse_number 1 200 10 (body_commentsPerPost b)) as [cp |] eqn:Hcp;
    [| discriminate].
  destruct (parse_enum _ top (body_sortBy b)) as [sb |]; [| discriminate].
  destruct (parse_enum _ clean (body_exportMode b)) as [em |];
    [| discriminate].
  intros [= <-]. unfold scrapeConfigSchema.
  cbn [subreddit postCount skipPosts commentsPerPost].
  apply parse_number_bounds in Hpc; [| lia | lia].
  apply parse_number_bounds in Hsk; [| lia | lia].
  apply parse_number_bounds in Hcp; [| lia | lia].
  unfold parse_name in Hname.
  destruct (body_subreddit b) as [[| ? | ? | s | ? | ?] |]; try discriminate.
  destruct (1 <=? String.length s) eqn:Hlen; [| discriminate].
  injection Hname as <-. rewrite Hlen. cbn [andb].
  repeat (apply andb_true_intro; split); apply Nat.leb_le; lia.
Qed.

Lemma run_actions_app (t1 t2 : list route_action) :
  run_actions (t1 ++ t2) = run_actions t1 ++ run_actions t2.
Proof.
  induction t1 as [| [code | m | n v | | a] t1 IH]; cbn [app run_actions];
    now rewrite ?IH.
Qed.

Lemma run_actions_Run (t : list io) : run_actions (map Run t) = t.
Proof. induction t as [| a t IH]; cbn; [reflexivity | now rewrite IH]. Qed.

(** X16. Whatever the body of a request is, the route either answers 400
    with a message and starts no run (no request to Reddit, no event), or
    sets the three headers of an event stream, flushes them and runs the
    scrape for an accepted configuration; and the run makes at most
    [6 * maxAttempts + 6 * 1000] = 6600 requests to Reddit. *)
Theorem scrape_route_effort (net : nat -> string -> outcome)
    (error_message : option RequestBody -> string)
    (body : option RequestBody) (c : nat) :
  let t := scrape_route net error_message body c in
  length (requests (run_actions t)) <= 6 * maxAttempts + 6 * 1000
  /\ match safeParse body with
     | None => t = [SendStatus 400; SendJson (error_message body)]
     | Some config =>
         scrapeConfigSchema config = true
         /\ firstn 4 t = [SetHeader "Content-Type" "text/event-stream";
                          SetHeader "Cache-Control" "no-cache";
                          SetHeader "Connection" "keep-alive";
                          FlushHeaders]
         /\ run_actions t = out (api_scrape net config c)
     end.
Proof.
  cbn zeta. unfold scrape_route.
  destruct (safeParse body) as [config |] eqn:Hparse.
  - pose proof (safeParse_sound body Hparse) as Hsound.
    destruct (scrapeConfigSchema_bounds config Hsound) as ((_ & Hpc) & _).
    destruct (api_scrape_effort_spec net config c) as (Hcount & _).
    rewrite run_actions_app, run_actions_Run. cbn [run_actions app firstn].
    split; [lia |]. now repeat split.
  - cbn [run_actions requests length]. split; [lia | reflexivity].
Qed.

(** X17. The route accepts what the page sends: for a configuration within
    the bounds of the schema, [safeParse] of the body that
    [JSON.stringify(config)] amounts to gives back that configuration; and
    whatever [safeParse] accepts is within the bounds. *)
Theorem safeParse_request_body (config : ScrapeConfig) :
  scrapeConfigSchema config = true <->
  safeParse (Some (request_body config)) = Some config.
Proof.
  split; [| apply safeParse_sound].
  intros Hvalid.
  destruct (scrapeConfigSchema_bounds config Hvalid)
    as ((Hpc1 & Hpc2) & Hsk & Hcp1 & Hcp2).
  unfold scrapeConfigSchema in Hvalid.
  repeat (apply andb_prop in Hvalid as [Hvalid ?]).
  unfold safeParse, request_body, parse_name, parse_number.
  cbn [body_subreddit body_postCount body_skipPosts body_commentsPerPost
       body_sortBy body_exportMode].
  rewrite Hvalid.
  replace (Z.leb 1 (Z.of_nat (postCount config))) with true
    by (symmetry; apply Z.leb_le; lia).
  replace (Z.leb (Z.of_nat (postCount config)) 1000) with true
    by (symmetry; apply Z.leb_le; lia).
  replace (Z.leb 0 (Z.of_nat (skipPosts config))) with true
    by (symmetry; apply Z.leb_le; lia).
  replace (Z.leb (Z.of_nat (skipPosts config)) 5000) with true
    by (symmetry; apply Z.leb_le; lia).
  replace (Z.leb 1 (Z.of_nat (commentsPerPost config))) with true
    by (symmetry; apply Z.leb_le; lia).
  replace (Z.leb (Z.of_nat (commentsPerPost config)) 200) with true
    by (symmetry; apply Z.leb_le; lia).
  cbn [andb]. rewrite !Nat2Z.id.
  destruct config as [name pc sk cp sb em]. cbn [sortBy exportMode].
  now destruct sb, em.
Qed.

Lemma safeParse_request_body_witness :
  safeParse (Some (request_body (sample_config clean)))
  = Some (sample_config clean).
Proof.
  apply (proj1 (safeParse_request_body (sample_config clean))).
  reflexivity.
Defined.

Lemma on_lines_under_way (JSON_parse : string -> parsed_line) (target : nat)
    (toasts : list Toast) (lines : list string) :
  forall st,
    under_way target toasts st ->
    under_way target toasts (state_of (on_lines JSON_parse lines st)).
Proof.
  induction lines as [| line lines IH]; intros st Hst; [exact Hst |].
  cbn [on_lines]. unfold on_line.
  destruct (startsWith "data: " line); [| now apply IH].
  destruct (JSON_parse (slice_from 6 line)) as [| | data |];
    try (now apply IH); try exact Hst.
  destruct data as [n p t m | m d | m]; cbn [on_data];
    [apply IH | apply IH | exact Hst];
    destruct Hst as (Htarget & Htoasts & Hstatus);
    (split; [exact Htarget |]); (split; [exact Htoasts |]); cbn; auto.
Qed.

Lemma read_loop_under_way (JSON_parse : string -> parsed_line) (target : nat)
    (toasts : list Toast) (chunks : list string) (ending : option thrown) :
  forall buffer st,
    under_way target toasts st ->
    under_way target toasts
      (state_of (read_loop JSON_parse chunks ending buffer st)).
Proof.
  induction chunks as [| value chunks IH]; intros buffer st Hst.
  - cbn [read_loop]. now destruct ending.
  - cbn [read_loop]. cbv zeta.
    pose proof (on_lines_under_way JSON_parse
                  (removelast (split (ascii_of_nat 10) (buffer +++ value)))
                  Hst) as Hlines.
    destruct (on_lines JSON_parse
                (removelast (split (ascii_of_nat 10) (buffer +++ value))) st)
      as [st' | e st']; [now apply IH | exact Hlines].
Qed.

(** X18. Whatever the response is and whatever [JSON.parse] makes of its
    lines, [startScraping] ends with the configured [postCount] as target
    and in one of two ways: with the status "error", some message and
    exactly one new toast, "Scraping failed" with that message; or with the
    status "scraping" or "complete" and no new toast. *)
Theorem startScraping_settles (JSON_parse : string -> parsed_line)
    (config : ScrapeConfig) (response : scrape_response) (st : Home) :
  let st' := startScraping JSON_parse config response st in
  sp_targetPosts (home_progress st') = postCount config
  /\ ((sp_status (home_progress st') = status_error
       /\ exists message,
            sp_message (home_progress st') = Some message
            /\ home_toasts st' = home_toasts st ++ [failure_toast message])
      \/ ((sp_status (home_progress st') = status_scraping
           \/ sp_status (home_progress st') = status_complete)
          /\ home_toasts st' = home_toasts st)).
Proof.
  cbn zeta. unfold startScraping. cbv zeta. fold (started config st).
  assert (Hstart : under_way (postCount config) (home_toasts st)
                     (started config st))
    by (split; [reflexivity | split; [reflexivity | now left]]).
  match goal with
  | |- context [match ?t with Went _ => _ | Thrown _ _ => _ end] =>
      set (tried := t)
  end.
  assert (Htried : under_way (postCount config) (home_toasts st)
                     (state_of tried)).
  { subst tried. destruct response as [e | [message | e] | | chunks ending];
      try exact Hstart.
    now apply read_loop_under_way. }
  destruct tried as [st' | e st']; cbn [state_of] in Htried;
    destruct Htried as (Htarget & Htoasts & Hstatus).
  - split; [exact Htarget |]. right. now split.
  - cbn [toast setProgress home_progress home_toasts sp_status sp_message
         sp_targetPosts].
    split; [exact Htarget |]. left. split; [reflexivity |].
    eexists. split; [reflexivity |]. now rewrite Htoasts.
Qed.

(* ===================================================================== *)
(** ** The pause of [fetchPosts] *)
(* ===================================================================== *)

Lemma maxAttempts_succ : exists fuel, maxAttempts = S fuel.
Proof. now exists 99. Qed.

Lemma page_loop_full (net : nat -> string -> outcome)
    (subreddit sortBy : string) (skipCount totalNeeded fuel attempts : nat)
    (allPosts : list RedditPost) (after : option string) (c : nat) :
  totalNeeded <= length allPosts ->
  page_loop net subreddit sortBy sendSSE skipCount totalNeeded fuel attempts
    allPosts after c
  = mkRun (Ret allPosts) c [].
Proof.
  intros Hfull. destruct fuel as [| fuel]; cbn [page_loop]; [reflexivity |].
  replace (length allPosts <? totalNeeded) with false
    by (symmetry; apply Nat.ltb_ge; lia).
  reflexivity.
Qed.

(** X19. [fetchPosts] pauses after a page when the page names a successor,
    not when another page is needed.  When the first listing page is served
    at the first attempt and either names no successor or holds as many
    qualifying posts as are needed, [fetchPosts] makes that one request and
    sends one progress event for each post it takes; it then pauses
    2000 ms if the page names a successor, although no request follows, and
    makes no pause when the listing ends there. *)
Theorem fetchPosts_single_page (net : nat -> string -> outcome)
    (subreddit sortBy : string) (targetCount skipCount c : nat)
    (r : response) (l : Listing) (p : PostData) (cs : list PostData) :
  let url := listing_url subreddit sortBy None in
  let taken := firstn (skipCount + targetCount)
                 (map extractPost (qualifying [p :: cs])) in
  net c url = Responded r ->
  is_ok r = true ->
  json_body r = Parsed (ListingDoc l) ->
  listing_children l = Some (p :: cs) ->
  0 < skipCount + targetCount ->
  truthy_str (listing_after l) = false
  \/ skipCount + targetCount <= length (qualifying [p :: cs]) ->
  fetchPosts net subreddit sortBy targetCount skipCount sendSSE c
  = mkRun (Ret (slice skipCount (skipCount + targetCount) taken)) (S c)
      (Fetch url (net c url)
         :: map Write (map (post_progress skipCount) (seq 1 (length taken)))
         ++ (if truthy_str (listing_after l)
             then [Sleep DELAY_BETWEEN_REQUESTS] else [])).
Proof.
  cbn zeta. intros Hnet Hok Hbody Hcs Hpos Hcase.
  pose proof (@fetchRedditJSON_retries_then_succeeds_spec net
                (listing_url subreddit sortBy None) 2 c 0 r) as Hfetch.
  rewrite Nat.add_0_r in Hfetch.
  specialize (Hfetch (Nat.le_0_l 2) eq_refl Hnet Hok).
  rewrite Hbody in Hfetch. cbn [retried seq flat_map app] in Hfetch.
  unfold retried in Hfetch. cbn [seq flat_map app] in Hfetch.
  pose proof (@page_try_children net subreddit sortBy skipCount
                (skipCount + targetCount) [] None c l p cs
                (f_equal (@res _) Hfetch) Hcs Hpos) as Htry.
  cbn zeta in Htry. rewrite Hfetch in Htry. cbn [now out app length] in Htry.
  unfold page_posts, page_events in Htry. cbn [length] in Htry.
  rewrite Nat.sub_0_r in Htry.
  set (taken := firstn (skipCount + targetCount)
                  (map extractPost (qualifying [p :: cs]))) in *.
  assert (Hloop : forall fuel,
    page_loop net subreddit sortBy sendSSE skipCount
      (skipCount + targetCount) (S fuel) 0 [] None c
    = mkRun (Ret taken) (S c)
        (Fetch (listing_url subreddit sortBy None)
           (net c (listing_url subreddit sortBy None))
           :: map Write (map (post_progress skipCount)
                           (seq 1 (length taken)))
           ++ (if truthy_str (listing_after l)
               then [Sleep DELAY_BETWEEN_REQUESTS] else []))).
  { intros fuel. cbn [page_loop length].
    replace (0 <? skipCount + targetCount) with true
      by (symmetry; now apply Nat.ltb_lt).
    destruct maxAttempts_succ as (n & ->).
    replace (0 <? S n) with true by reflexivity.
    cbn [andb]. rewrite bind_try_rethrow.
    destruct (truthy_str (listing_after l)) eqn:Hafter;
      rewrite (bind_Ret _ _ _ (f_equal (@res _) Htry)), Htry;
      cbn [res now out].
    - destruct Hcase as [Hcase | Henough]; [discriminate Hcase |].
      assert (Hfull : skipCount + targetCount <= length taken).
      { subst taken. rewrite length_firstn, length_map. lia. }
      rewrite page_loop_full by exact Hfull.
      cbn [res now out ret app]. now rewrite !app_nil_r.
    - cbn [res now out ret app]. now rewrite !app_nil_r. }
  unfold fetchPosts. destruct maxAttempts_succ as (fuel & ->).
  rewrite (bind_Ret _ _ _ (f_equal (@res _) (Hloop fuel))), Hloop.
  cbn [res now out ret]. now rewrite app_nil_r.
Qed.

Lemma fetchPosts_single_page_witness :
  fetchPosts long_listing "rocq" "new" 1 0 sendSSE 0
  = mkRun (Ret [extractPost (text_post "a")]) 1
      [Fetch "https://www.reddit.com/r/rocq/new.json?limit=100"
         (long_listing 0 "https://www.reddit.com/r/rocq/new.json?limit=100");
       Write (post_progress 0 1);
       Sleep DELAY_BETWEEN_REQUESTS].
Proof.
  apply (@fetchPosts_single_page long_listing "rocq" "new" 1 0 0
           {| status := 200;
              json_body :=
                Parsed (ListingDoc
                          {| listing_children :=
                               Some [text_post "a"; text_post "c"];
                             listing_after := Some "t3_c" |}) |}
           {| listing_children := Some [text_post "a"; text_post "c"];
              listing_after := Some "t3_c" |}
           (text_post "a") [text_post "c"]);
    try reflexivity.
  - lia.
  - right. vm_compute. lia.
Defined.
